(** * EGESUR normative assistant: chunking, embedding cache and semantic ranking

    A shallow embedding of [src/main.py] (the FastAPI service that indexes the
    documents of a Drive folder and answers semantic searches over them),
    followed by the properties of its segmenter, similarity ranker, cache
    store and ingestion run.

    Conventions of the embedding.
    - A Python [str] is the list of its code points ([pystr]); [len] is the
      length of that list.  Literals of the source are written [str "..."].
    - A Python [float] is a binary64 number, Rocq's primitive [float].
    - A Python [int] that the code compares or slices with is a [Z]; a count
      or an index produced by [len] or [enumerate] is a [nat].
    - [datetime] values are microseconds on the integer line.
    - The module-level globals [CACHE] and the [document_chunks] table are the
      two fields of [State]; everything the process only reads (environment
      variables, Drive, the embeddings API, the clock) and whether the
      database carries a transaction or a query through is a field of
      [Env]. *)

From Stdlib Require Import Ascii String DecimalString.
From Stdlib Require Import List ZArith NArith Lia Bool.
From Stdlib Require Import Floats Sorted Permutation.
From Stdlib Require DecimalNat.
Import ListNotations.

Set Implicit Arguments.

(* ================================================================== *)
(** * Part I. The program                                              *)
(* ================================================================== *)

(** ** Python strings *)

Module Py.

Definition pystr := list N.

Definition len (s : pystr) : Z := Z.of_nat (length s).

(** Truth value of a string: [if s] holds for the non-empty ones. *)
Definition truthy (s : pystr) : bool :=
  match s with [] => false | _ :: _ => true end.

(** [str.isspace] for one code point (CPython's [_PyUnicode_IsWhitespace]). *)
Definition isspace (c : N) : bool :=
  ((9 <=? c) && (c <=? 13) || (28 <=? c) && (c <=? 32)
   || (c =? 133) || (c =? 160) || (c =? 5760)
   || (8192 <=? c) && (c <=? 8202)
   || (c =? 8232) || (c =? 8233) || (c =? 8239) || (c =? 8287)
   || (c =? 12288))%N.

Fixpoint lstrip (s : pystr) : pystr :=
  match s with
  | [] => []
  | c :: s' => if isspace c then lstrip s' else s
  end.

Definition rstrip (s : pystr) : pystr := rev (lstrip (rev s)).

(** [s.strip()] *)
Definition strip (s : pystr) : pystr := lstrip (rstrip s).

(** [s.split('\n')]: never empty, one more piece than there are newlines. *)
Fixpoint split_lines (s : pystr) : list pystr :=
  match s with
  | [] => [[]]
  | c :: s' =>
      if (c =? 10)%N then [] :: split_lines s'
      else match split_lines s' with
           | [] => [[c]]
           | p :: ps => (c :: p) :: ps
           end
  end.

(** [s[-k:]] for [k > 0]: the last [k] code points, all of [s] when it is
    shorter. *)
Definition slice_last (k : Z) (s : pystr) : pystr :=
  skipn (length s - Z.to_nat k) s.

(** [s[:k]] for any integer [k]; a negative [k] counts from the end. *)
Definition slice_to {A : Type} (k : Z) (l : list A) : list A :=
  if (0 <=? k)%Z then firstn (Z.to_nat k) l
  else firstn (length l - Z.to_nat (- k)) l.

(** Decoding of the UTF-8 bytes of a source literal into code points. *)
Fixpoint utf8_decode (bs : list N) : pystr :=
  match bs with
  | [] => []
  | b0 :: r0 =>
      if (b0 <? 128)%N then b0 :: utf8_decode r0
      else match r0 with
           | [] => [b0]
           | b1 :: r1 =>
               if (b0 <? 224)%N
               then ((b0 - 192) * 64 + (b1 - 128))%N :: utf8_decode r1
               else match r1 with
                    | [] => [b0; b1]
                    | b2 :: r2 =>
                        if (b0 <? 240)%N
                        then ((b0 - 224) * 4096 + (b1 - 128) * 64
                              + (b2 - 128))%N :: utf8_decode r2
                        else match r2 with
                             | [] => [b0; b1; b2]
                             | b3 :: r3 =>
                                 ((b0 - 240) * 262144 + (b1 - 128) * 4096
                                  + (b2 - 128) * 64 + (b3 - 128))%N
                                 :: utf8_decode r3
                             end
                    end
           end
  end.

(** A string literal of the source. *)
Definition str (s : string) : pystr :=
  utf8_decode (map N_of_ascii (list_ascii_of_string s)).

(** [str(n)] for a non-negative integer. *)
Definition str_of_nat (n : nat) : pystr :=
  str (NilEmpty.string_of_uint (Nat.to_uint n)).

Definition space : N := 32%N.
Definition newline : N := 10%N.

Definition pystr_eq_dec : forall a b : pystr, {a = b} + {a <> b} :=
  list_eq_dec N.eq_dec.

Definition pystr_eqb (a b : pystr) : bool :=
  if pystr_eq_dec a b then true else false.

End Py.

Import Py.

(** ** Segmenter: [split_text_into_chunks] *)

Module Segmenter.

(** [paragraphs = [p.strip() for p in text.split('\n') if p.strip()]] *)
Definition paragraphs (text : pystr) : list pystr :=
  map strip (filter (fun p => truthy (strip p)) (split_lines text)).

(** One turn of the loop over the paragraphs; the loop variables are the list
    [chunks] and the buffer [current_chunk]. *)
Definition step (chunk_size overlap : Z) (st : list pystr * pystr)
    (paragraph : pystr) : list pystr * pystr :=
  let '(chunks, current_chunk) := st in
  let '(chunks, current_chunk) :=
    if (len current_chunk + len paragraph >? chunk_size)%Z
       && truthy current_chunk
    then (chunks ++ [strip current_chunk],
          if (overlap >? 0)%Z
          then slice_last overlap current_chunk ++ [space]
          else [])
    else (chunks, current_chunk) in
  (chunks, current_chunk ++ paragraph ++ [space]).

Definition split_text_into_chunks (text : pystr) (chunk_size overlap : Z)
    : list pystr :=
  if negb (truthy text) || (len (strip text) =? 0)%Z then []
  else
    let '(chunks, current_chunk) :=
      fold_left (step chunk_size overlap) (paragraphs text) ([], []) in
    if truthy (strip current_chunk)
    then chunks ++ [strip current_chunk]
    else chunks.

End Segmenter.

(** ** Exceptions *)

Module Runtime.

(** The exceptions the modelled code raises or catches: FastAPI's
    [HTTPException], and the built-in ones ([ValueError], [TypeError], a
    failure of a collaborator) with their message. *)
Inductive Exn : Type :=
| HTTPException (status_code : Z) (detail : pystr)
| ValueError (msg : pystr)
| TypeError (msg : pystr)
| Failure (msg : pystr).

(** The outcome of a call: a value, or a raised exception. *)
Inductive result (A : Type) : Type :=
| Ok (a : A)
| Raise (e : Exn).

Arguments Ok {A} a.
Arguments Raise {A} e.

Definition bind {A B : Type} (r : result A) (k : A -> result B) : result B :=
  match r with
  | Ok a => k a
  | Raise e => Raise e
  end.

End Runtime.

Import Runtime.

(** ** Similarity ranker: [cosine_similarity] and the ordering of
       [semantic_search] *)

Module Ranker.

Definition Vector := list float.

(** The accumulation of [np.dot] over two arrays of one length: the products
    are added in the order of the indices, each one rounded before it is
    added.  The kernel numpy calls may fuse the two roundings or add in
    blocks, which can change the last bits of the sum. *)
Fixpoint dot_from (acc : float) (u v : Vector) : float :=
  match u, v with
  | x :: u', y :: v' => dot_from (acc + x * y)%float u' v'
  | _, _ => acc
  end.

(** [np.dot(u, v)] for one-dimensional arrays: the shapes must agree. *)
Definition np_dot (u v : Vector) : result float :=
  if (length u =? length v)%nat then Ok (dot_from 0%float u v)
  else Raise (ValueError
         (str "shapes (" ++ str_of_nat (length u) ++ str ",) and ("
          ++ str_of_nat (length v) ++ str ",) not aligned: "
          ++ str_of_nat (length u) ++ str " (dim 0) != "
          ++ str_of_nat (length v) ++ str " (dim 0)")).

(** [np.linalg.norm(v)]: the square root of [v.dot(v)]. *)
Definition np_linalg_norm (v : Vector) : float :=
  PrimFloat.sqrt (dot_from 0%float v v).

Definition cosine_similarity (vec1 vec2 : Vector) : result float :=
  bind (np_dot vec1 vec2) (fun dot_product =>
  let norm1 := np_linalg_norm vec1 in
  let norm2 := np_linalg_norm vec2 in
  if (norm1 =? 0)%float || (norm2 =? 0)%float then Ok 0%float
  else Ok (dot_product / (norm1 * norm2))%float).

(** [list.sort(key=..., reverse=True)]: a stable sort by descending key, the
    keys compared with [<] only (Python keeps the order of equal keys, also
    under [reverse=True]).  An element is put in front of the first one whose
    key is not greater than its own; on keys that [<] orders totally this is
    the list every stable sort returns.  With a NaN among the keys [<] is
    not an order, and where the elements end up then depends on the steps
    of CPython's merge sort, which the definition does not follow: there it
    gives one arrangement of the same elements, not necessarily
    Python's. *)
Section PySort.

Variable A : Type.
Variable key : A -> float.

Fixpoint insert_desc (x : A) (l : list A) : list A :=
  match l with
  | [] => [x]
  | y :: l' =>
      if (key x <? key y)%float then y :: insert_desc x l'
      else x :: l
  end.

Definition sort_desc (l : list A) : list A :=
  fold_right insert_desc [] l.

End PySort.

End Ranker.

(** ** Data model *)

Module Model.

Import Ranker.

(** A chunk dictionary as [warmup_cache] and [load_chunks_from_db] build it.
    [embedding] is [None] where the code stores [None]. *)
Record Chunk : Type := mkChunk {
  chunk_id : pystr;
  text : pystr;
  embedding : option Vector;
  source_document : pystr;
  source_link : pystr;
  chunk_index : nat;
  total_chunks : nat
}.

(** A chunk with the ['similarity'] key that [semantic_search] adds. *)
Record Scored : Type := mkScored {
  scored_chunk : Chunk;
  similarity : float
}.

(** A row of the [document_chunks] table. *)
Record DocumentChunk : Type := mkRow {
  row_chunk_id : pystr;
  row_text : pystr;
  row_embedding : option Vector;
  row_source_document : pystr;
  row_source_link : pystr;
  row_chunk_index : nat;
  row_total_chunks : nat;
  row_folder_id : pystr;
  row_created_at : Z
}.

(** The global dictionary [CACHE]: each key is present or not.  [{}] has
    none. *)
Record Cache : Type := mkCache {
  timestamp : option Z;
  folder_id : option pystr;
  files_data : option (list Chunk);
  total_files : option nat
}.

Definition empty_cache : Cache := mkCache None None None None.

(** Truth value of the dictionary: [if CACHE] holds when it has a key. *)
Definition cache_truthy (c : Cache) : bool :=
  match timestamp c, folder_id c, files_data c, total_files c with
  | None, None, None, None => false
  | _, _, _, _ => true
  end.

(** The mutable state of the process: the volatile cache, the durable table,
    and the number of requests sent so far to the embeddings API. *)
Record State : Type := mkState {
  CACHE : Cache;
  DB : list DocumentChunk;
  api_calls : nat
}.

(** A file of the Drive listing. *)
Record DriveFile : Type := mkFile {
  file_id : pystr;
  file_name : pystr;
  mimeType : pystr;
  webViewLink : option pystr
}.

Definition bytes := list N.

(** What the process reads and calls but does not own. *)
Record Env : Type := mkEnv {
  FOLDER_ID : option pystr;
  DATABASE_URL : option pystr;
  (** [openai_client] is a client ([true]) or [None]. *)
  openai_client : bool;
  (** [SessionLocal] is a session factory ([true]) or [None]. *)
  SessionLocal : bool;
  (** Whether the transaction that would leave the table so is carried
      through to its commit: the connection holds, and neither the driver
      nor the server fails on a statement for a reason other than the ones
      [transaction_commits] checks itself (the primary key, the values a
      column refuses). *)
  db_commits : list DocumentChunk -> bool;
  (** Whether the query of [load_chunks_from_db] goes through. *)
  db_query_ok : bool;
  (** The answer of the [n]-th request [embeddings.create(input=text)]. *)
  embeddings_create : nat -> pystr -> result Vector;
  (** Building the Drive client from the credentials. *)
  drive_build : result unit;
  (** [service.files().list(...).execute()] for a folder. *)
  drive_list : pystr -> result (list DriveFile);
  (** The media download and the DOCX export of a file, by its id. *)
  drive_get_media : pystr -> result bytes;
  drive_export_media : pystr -> result bytes;
  (** The extractors return a text, or a bracketed diagnostic; they never
      raise. *)
  extract_text_from_pdf : bytes -> pystr;
  extract_text_from_docx : bytes -> pystr;
  (** [str(e)] of an [HTTPException] (it depends on the framework's
      version). *)
  http_exception_str : Z -> pystr -> pystr;
  (** [format_chunks_response], which prints the similarity as a percentage. *)
  format_chunks_response : list (Chunk * option float) -> pystr;
  (** The readings of [datetime.now()]: in [is_cache_valid], in [update_cache]
      (and the start-up load), and as the default of [created_at]. *)
  now_valid : Z;
  now_update : Z;
  now_insert : Z
}.

(** [str(e)] *)
Definition exn_str (env : Env) (e : Exn) : pystr :=
  match e with
  | HTTPException status detail => http_exception_str env status detail
  | ValueError msg => msg
  | TypeError msg => msg
  | Failure msg => msg
  end.

(** Truth value of an environment variable: set and not empty. *)
Definition env_truthy (v : option pystr) : bool :=
  match v with
  | Some s => truthy s
  | None => false
  end.

End Model.

Import Model.

(** ** Cache store *)

Module CacheStore.

Definition CACHE_TTL_HOURS : Z := 24 * 365 * 100.

(** [timedelta(hours=h)] in microseconds. *)
Definition timedelta_hours (h : Z) : Z := h * 3600 * 1000000.

Definition option_pystr_eqb (a b : option pystr) : bool :=
  match a, b with
  | Some x, Some y => pystr_eqb x y
  | None, None => true
  | _, _ => false
  end.

(** [is_cache_valid(folder_id)], with the cache and the reading of the clock
    it looks at. *)
Definition is_cache_valid (now : Z) (cache : Cache) (fid : pystr) : bool :=
  if negb (cache_truthy cache)
     || negb (option_pystr_eqb (folder_id cache) (Some fid))
  then false
  else
    match timestamp cache with
    | None => false
    | Some cache_timestamp =>
        let cached_files :=
          match files_data cache with Some l => l | None => [] end in
        if match cached_files with [] => true | _ :: _ => false end
           || (length cached_files =? 0)%nat
        then false
        else
          let expiration_time :=
            (cache_timestamp + timedelta_hours CACHE_TTL_HOURS)%Z in
          (now <? expiration_time)%Z
    end.

(** [get_cached_files()] *)
Definition get_cached_files (cache : Cache) : list Chunk :=
  match files_data cache with Some l => l | None => [] end.

(** The row that [save_chunks_to_db] builds for a chunk. *)
Definition row_of_chunk (created : Z) (fid : pystr) (c : Chunk)
    : DocumentChunk :=
  mkRow (chunk_id c) (text c) (embedding c) (source_document c)
        (source_link c) (chunk_index c) (total_chunks c) fid created.

(** The loop of [save_chunks_to_db]: the rows handed to [db.add], in order. *)
Fixpoint rows_to_add (created : Z) (fid : pystr) (chunks : list Chunk)
    : list DocumentChunk :=
  match chunks with
  | [] => []
  | chunk_data :: rest =>
      match embedding chunk_data with
      | None => rows_to_add created fid rest
      | Some _ =>
          row_of_chunk created fid chunk_data :: rows_to_add created fid rest
      end
  end.

(** The primary key [chunk_id] is unique in a table. *)
Fixpoint primary_key_ok (rows : list DocumentChunk) : bool :=
  match rows with
  | [] => true
  | r :: rest =>
      negb (existsb (fun r' => pystr_eqb (row_chunk_id r') (row_chunk_id r))
                    rest)
      && primary_key_ok rest
  end.

(** A string that reaches a column: a text with U+0000 is refused on the
    way, and a lone surrogate cannot be encoded. *)
Definition text_storable (s : pystr) : bool :=
  forallb (fun c => negb ((c =? 0) || (55296 <=? c) && (c <=? 57343))%N) s.

(** A number a JSON document carries: [json.dumps] prints a NaN and the
    infinities as tokens that the server refuses in a [JSONB] column. *)
Definition json_number (x : float) : bool :=
  negb (is_nan x) && negb (is_infinity x).

(** A number an [Integer] column takes. *)
Definition int4 (n : nat) : bool := (Z.of_nat n <? 2147483648)%Z.

(** The values of a row are ones its columns take. *)
Definition storable (r : DocumentChunk) : bool :=
  text_storable (row_chunk_id r) && text_storable (row_text r)
  && text_storable (row_source_document r)
  && text_storable (row_source_link r)
  && text_storable (row_folder_id r)
  && int4 (row_chunk_index r) && int4 (row_total_chunks r)
  && match row_embedding r with
     | Some v => forallb json_number v
     | None => true
     end.

(** The table [save_chunks_to_db] asks for: the rows of the other folders,
    then the new ones. *)
Definition table_after (created : Z) (chunks : list Chunk) (fid : pystr)
    (db : list DocumentChunk) : list DocumentChunk :=
  filter (fun r => negb (pystr_eqb (row_folder_id r) fid)) db
  ++ rows_to_add created fid chunks.

(** [db.commit()] returns: the folder id is a parameter the delete can
    carry, the primary key holds in the table asked for, every new row is
    storable, and the transaction is carried through.  Anything else raises
    inside the [try]. *)
Definition transaction_commits (env : Env) (chunks : list Chunk)
    (fid : pystr) (db : list DocumentChunk) : bool :=
  text_storable fid
  && primary_key_ok (table_after (now_insert env) chunks fid db)
  && forallb storable (rows_to_add (now_insert env) fid chunks)
  && db_commits env (table_after (now_insert env) chunks fid db).

(** [save_chunks_to_db(chunks, folder_id)] on the table: the rows of the
    folder are deleted, the new ones added, and the transaction committed;
    whatever raises on the way (a clash on the primary key, a value a column
    refuses, a lost connection) is caught, and the handler rolls the whole
    transaction back.  [SessionLocal()] itself opens no connection. *)
Definition save_chunks_to_db (env : Env) (chunks : list Chunk) (fid : pystr)
    (db : list DocumentChunk) : list DocumentChunk :=
  if negb (SessionLocal env) then db
  else
    if transaction_commits env chunks fid db
    then table_after (now_insert env) chunks fid db
    else db.

(** A number read back from a [JSONB] column.  The server keeps the decimal
    that [json.dumps] printed: decimals have one zero, so that [-0.0] comes
    back as [0.0]; any other finite number comes back with the value it was
    written with (a number that [repr] prints with a positive exponent, from
    [1e16] on, as a Python [int] holding the printed decimal, which converts
    to the binary64 number written). *)
Definition jsonb_number (x : float) : float :=
  if (x =? 0)%float then 0%float else x.

(** The dictionary [load_chunks_from_db] builds from a row. *)
Definition chunk_of_row (r : DocumentChunk) : Chunk :=
  mkChunk (row_chunk_id r) (row_text r)
          (option_map (map jsonb_number) (row_embedding r))
          (row_source_document r) (row_source_link r)
          (row_chunk_index r) (row_total_chunks r).

(** [load_chunks_from_db(folder_id)]: the rows of the folder as dictionaries;
    a query that raises (the folder id is no parameter it can carry, or the
    database fails) is caught and gives the empty list. *)
Definition load_chunks_from_db (env : Env) (fid : pystr)
    (db : list DocumentChunk) : list Chunk :=
  if negb (SessionLocal env) then []
  else if negb (text_storable fid) || negb (db_query_ok env) then []
  else
    map chunk_of_row (filter (fun r => pystr_eqb (row_folder_id r) fid) db).

(** [update_cache(folder_id, files_data)] *)
Definition update_cache (env : Env) (fid : pystr) (files : list Chunk)
    (st : State) : State :=
  let cache :=
    mkCache (Some (now_update env)) (Some fid) (Some files)
            (Some (length files)) in
  mkState cache (save_chunks_to_db env files fid (DB st)) (api_calls st).

(** [invalidate_cache()] *)
Definition invalidate_cache (st : State) : State :=
  mkState empty_cache (DB st) (api_calls st).

(** [startup_event()]: the volatile cache is loaded from the table. *)
Definition startup_event (env : Env) (st : State) : State :=
  if negb (env_truthy (DATABASE_URL env)) || negb (SessionLocal env) then st
  else
    match FOLDER_ID env with
    | None => st
    | Some fid =>
        if negb (truthy fid) then st
        else
          let chunks := load_chunks_from_db env fid (DB st) in
          match chunks with
          | [] => st
          | _ :: _ =>
              mkState (mkCache (Some (now_update env)) (Some fid)
                               (Some chunks) (Some (length chunks)))
                      (DB st) (api_calls st)
          end
    end.





(** The state of a process that has just started. *)
Definition initial_state (db : list DocumentChunk) : State :=
  mkState empty_cache db 0.

End CacheStore.

(** ** Embedding provider and semantic search *)

Module Search.

Import Ranker.

Definition bump (st : State) : State :=
  mkState (CACHE st) (DB st) (S (api_calls st)).

(** [generate_embedding(text)] *)
Definition generate_embedding (env : Env) (text0 : pystr) (st : State)
    : result Vector * State :=
  if negb (openai_client env)
  then (Raise (HTTPException 500
          (str "OpenAI API no configurado. Agrega OPENAI_API_KEY en variables de entorno.")),
        st)
  else
    let max_chars := 30000%Z in
    let text0 :=
      if (len text0 >? max_chars)%Z then slice_to max_chars text0
      else text0 in
    match embeddings_create env (api_calls st) text0 with
    | Ok v => (Ok v, bump st)
    | Raise e =>
        (Raise (HTTPException 500
           (str "Error al generar embedding: " ++ exn_str env e)),
         bump st)
    end.

(** [cosine_similarity(query_embedding, chunk['embedding'])]: numpy refuses
    a [None] operand. *)
Definition chunk_similarity (query_embedding : Vector) (chunk : Chunk)
    : result float :=
  match embedding chunk with
  | Some v => cosine_similarity query_embedding v
  | None =>
      Raise (TypeError
        (str "unsupported operand type(s) for *: 'float' and 'NoneType'"))
  end.

(** The loop of [semantic_search] that scores every chunk. *)
Fixpoint score_all (query_embedding : Vector) (chunks_data : list Chunk)
    : result (list Scored) :=
  match chunks_data with
  | [] => Ok []
  | chunk :: rest =>
      bind (chunk_similarity query_embedding chunk) (fun sim =>
      bind (score_all query_embedding rest) (fun results =>
      Ok (mkScored chunk sim :: results)))
  end.

(** The part of [semantic_search] after the query has been embedded. *)
Definition rank (query_embedding : Vector) (chunks_data : list Chunk)
    (top_k : Z) : result (list Scored) :=
  bind (score_all query_embedding chunks_data) (fun results =>
  Ok (slice_to top_k (sort_desc similarity results))).

(** [semantic_search(query, chunks_data, top_k)] *)
Definition semantic_search (env : Env) (query : pystr)
    (chunks_data : list Chunk) (top_k : Z) (st : State)
    : result (list Scored) * State :=
  match generate_embedding env query st with
  | (Raise e, st') => (Raise e, st')
  | (Ok query_embedding, st') => (rank query_embedding chunks_data top_k, st')
  end.

End Search.

(** ** Ingestion: [warmup_cache], [refresh_cache] and [buscar_normativa] *)

Module Ingestion.

Import Ranker CacheStore Segmenter Search.

Definition mime_pdf : pystr := str "application/pdf".
Definition mime_docx : pystr :=
  str "application/vnd.openxmlformats-officedocument.wordprocessingml.document".
Definition mime_gdoc : pystr := str "application/vnd.google-apps.document".

(** [get_drive_service()]: every failure becomes an [HTTPException]. *)
Definition get_drive_service (env : Env) : result unit :=
  match drive_build env with
  | Ok service => Ok service
  | Raise e =>
      Raise (HTTPException 500
        (str "Error al conectar con Google Drive: " ++ exn_str env e))
  end.

(** [list_files_in_folder(service, folder_id, search_term=None)] *)
Definition list_files_in_folder (env : Env) (fid : pystr)
    : result (list DriveFile) :=
  match drive_list env fid with
  | Ok files => Ok files
  | Raise e =>
      Raise (HTTPException 500
        (str "Error al listar archivos: " ++ exn_str env e))
  end.

(** [download_file(service, file_id)]: the failure is logged and raised
    again. *)
Definition download_file (env : Env) (fid : pystr) : result bytes :=
  match drive_get_media env fid with
  | Ok content => Ok content
  | Raise e => Raise e
  end.

(** The branch on the MIME type inside the [try] of the loop over the files:
    the extracted text, or the exception of the download. *)
Definition file_content (env : Env) (file : DriveFile) : result pystr :=
  let mime_type := mimeType file in
  if pystr_eqb mime_type mime_pdf then
    bind (download_file env (file_id file)) (fun file_content =>
    Ok (extract_text_from_pdf env file_content))
  else if pystr_eqb mime_type mime_docx then
    bind (download_file env (file_id file)) (fun file_content =>
    Ok (extract_text_from_docx env file_content))
  else if pystr_eqb mime_type mime_gdoc then
    bind (drive_export_media env (file_id file)) (fun buffer_content =>
    Ok (extract_text_from_docx env buffer_content))
  else Ok (str "[Tipo de archivo no soportado: " ++ mime_type ++ str "]").

Definition web_link (file : DriveFile) : pystr :=
  match webViewLink file with
  | Some l => l
  | None => str "No disponible"
  end.

(** The local lists [all_files_data] and [embedding_errors] of a run. *)
Record Acc : Type := mkAcc {
  all_files_data : list Chunk;
  embedding_errors : list pystr
}.

(** One turn of [for i, chunk_text in enumerate(chunks)]. *)
Definition embed_chunk (env : Env) (file : DriveFile) (n_chunks : nat)
    (i : nat) (chunk_text : pystr) (a : Acc * State) : Acc * State :=
  let '(acc, st) := a in
  match generate_embedding env chunk_text st with
  | (Ok emb, st') =>
      (mkAcc (all_files_data acc ++
                [mkChunk (file_id file ++ str "_" ++ str_of_nat i)
                         chunk_text (Some emb) (file_name file)
                         (web_link file) i n_chunks])
             (embedding_errors acc),
       st')
  | (Raise embed_error, st') =>
      let error_msg :=
        file_name file ++ str " chunk " ++ str_of_nat i ++ str ": "
        ++ exn_str env embed_error in
      (mkAcc (all_files_data acc) (embedding_errors acc ++ [error_msg]), st')
  end.

Fixpoint embed_chunks (env : Env) (file : DriveFile) (n_chunks : nat)
    (i : nat) (chunks : list pystr) (a : Acc * State) : Acc * State :=
  match chunks with
  | [] => a
  | chunk_text :: rest =>
      embed_chunks env file n_chunks (S i) rest
        (embed_chunk env file n_chunks i chunk_text a)
  end.

(** The chunk recorded for a file whose download raised. *)
Definition error_chunk (env : Env) (file : DriveFile) (e : Exn) : Chunk :=
  mkChunk (file_id file ++ str "_error")
          (str "[Error al procesar archivo: " ++ exn_str env e ++ str "]")
          None (file_name file) (web_link file) 0 1.

(** One turn of [for file in files]. *)
Definition process_file (env : Env) (a : Acc * State) (file : DriveFile)
    : Acc * State :=
  match file_content env file with
  | Ok content =>
      let chunks := split_text_into_chunks content 3000 300 in
      embed_chunks env file (length chunks) 0 chunks a
  | Raise e =>
      let '(acc, st) := a in
      (mkAcc (all_files_data acc ++ [error_chunk env file e])
             (embedding_errors acc),
       st)
  end.

Definition process_files (env : Env) (files : list DriveFile) (st : State)
    : Acc * State :=
  fold_left (process_file env) files (mkAcc [] [], st).

(** [len(set(chunk['source_document'] for chunk in chunks))] *)
Definition unique_docs (chunks : list Chunk) : nat :=
  length (nodup pystr_eq_dec (map source_document chunks)).

(** The dictionary that [warmup_cache] returns; a key that a branch does not
    set is [None]. *)
Record WarmupResult : Type := mkWarmup {
  w_success : bool;
  w_message : pystr;
  w_total_chunks : option nat;
  w_total_documents : option nat;
  w_total_files : option nat;
  w_cache_status : pystr;
  w_cache_ttl_hours : option Z;
  w_embedding_errors : option (list pystr);
  w_total_errors : option nat
}.

Definition folder_not_configured : Exn :=
  HTTPException 500 (str "FOLDER_ID no configurado. Verifica el archivo .env").

(** [warmup_cache()] *)
Definition warmup_cache (env : Env) (st : State)
    : result WarmupResult * State :=
  match FOLDER_ID env with
  | None => (Raise folder_not_configured, st)
  | Some fid =>
  if negb (truthy fid) then (Raise folder_not_configured, st)
  else if negb (openai_client env) then
    (Raise (HTTPException 500
       (str "OpenAI API no configurado. Verifica que OPENAI_API_KEY esté en las variables de entorno.")),
     st)
  else if is_cache_valid (now_valid env) (CACHE st) fid then
    let cached_chunks := get_cached_files (CACHE st) in
    (Ok (mkWarmup true (str "Caché ya está precargado y válido")
           (Some (length cached_chunks)) (Some (unique_docs cached_chunks))
           None (str "warm") None None None),
     st)
  else
    match get_drive_service env with
    | Raise e => (Raise e, st)
    | Ok service =>
    match list_files_in_folder env fid with
    | Raise e => (Raise e, st)
    | Ok [] =>
        (Ok (mkWarmup false
               (str "No hay archivos en la carpeta para precargar")
               None None (Some 0) (str "empty") None None None),
         st)
    | Ok files =>
        let '(acc, st1) := process_files env files st in
        let st2 := update_cache env fid (all_files_data acc) st1 in
        let n := length (all_files_data acc) in
        let ok := (0 <? n)%nat in
        (Ok (mkWarmup
               ok
               (if ok then str "Caché precargado exitosamente con embeddings"
                else str "Error: No se generaron embeddings")
               (Some n) (Some (unique_docs (all_files_data acc)))
               None (str "warm") (Some CACHE_TTL_HOURS)
               (match embedding_errors acc with
                | [] => None
                | _ :: _ => Some (slice_to 5 (embedding_errors acc))
                end)
               (match embedding_errors acc with
                | [] => None
                | _ :: _ => Some (length (embedding_errors acc))
                end)),
         st2)
    end
    end
  end.

(** The dictionary that [refresh_cache] returns. *)
Record RefreshResult : Type := mkRefresh {
  r_success : bool;
  r_message : pystr;
  r_total_chunks : nat;
  r_total_documents : nat;
  r_cache_status : pystr;
  r_cache_ttl_days : float
}.

Definition get_or (o : option nat) (d : nat) : nat :=
  match o with Some n => n | None => d end.

(** [refresh_cache()] *)
Definition refresh_cache (env : Env) (st : State)
    : result RefreshResult * State :=
  match warmup_cache env (invalidate_cache st) with
  | (Ok result, st') =>
      (Ok (mkRefresh true
             (str "Caché actualizado exitosamente con embeddings generados")
             (get_or (w_total_chunks result) 0)
             (get_or (w_total_documents result) 0)
             (str "refreshed")
             (PrimFloat.of_uint63 (Uint63.of_Z CACHE_TTL_HOURS) / 24)%float),
       st')
  | (Raise e, st') =>
      (Raise (HTTPException 500
         (str "Error al actualizar caché: " ++ exn_str env e)),
       st')
  end.

(** The dictionary that [buscar_normativa] returns; [s_chunks] is the list
    [top_chunks] that [s_content] prints. *)
Record SearchResponse : Type := mkSearch {
  s_success : bool;
  s_message : pystr;
  s_total_chunks : option nat;
  s_total_files : option nat;
  s_search_term : option (option pystr);
  s_content : pystr;
  s_chunks : list (Chunk * option float)
}.

Definition MAX_CHUNKS_IN_RESPONSE : Z := 10.

(** [[c for c in all_files_data if c.get('embedding') is not None]] *)
Definition chunks_with_embeddings (all : list Chunk) : list Chunk :=
  filter (fun c => match embedding c with Some _ => true | None => false end)
         all.

(** The first half of [buscar_normativa]: the chunks to search, from the
    cache or from a new run over the folder (the same loop as in
    [warmup_cache], its error messages only logged). *)
Definition corpus_for_search (env : Env) (fid : pystr) (st : State)
    : result (list Chunk + SearchResponse) * State :=
  if is_cache_valid (now_valid env) (CACHE st) fid
  then (Ok (inl (get_cached_files (CACHE st))), st)
  else
    match get_drive_service env with
    | Raise e => (Raise e, st)
    | Ok service =>
    match list_files_in_folder env fid with
    | Raise e => (Raise e, st)
    | Ok [] =>
        (Ok (inr (mkSearch true
                    (str "No se encontraron archivos en la carpeta")
                    None (Some 0) None
                    (str "No se encontraron archivos en la carpeta de Google Drive.")
                    [])),
         st)
    | Ok files =>
        let '(acc, st1) := process_files env files st in
        (Ok (inl (all_files_data acc)),
         update_cache env fid (all_files_data acc) st1)
    end
    end.

(** The second half of [buscar_normativa]: ranking, or the first chunks. *)
Definition search_corpus (env : Env) (termino : option pystr)
    (all : list Chunk) (st : State) : result SearchResponse * State :=
  let answer (top_chunks : list (Chunk * option float)) :=
    let total := length top_chunks in
    mkSearch true
      (str "Se encontraron " ++ str_of_nat total
       ++ str " sección(es) relevante(s)")
      (Some total) None (Some termino)
      (format_chunks_response env top_chunks) top_chunks in
  if env_truthy termino then
    let term := match termino with Some t => t | None => [] end in
    match chunks_with_embeddings all with
    | [] =>
        (Ok (mkSearch false
               (str "No hay embeddings disponibles. Verifica que OPENAI_API_KEY esté configurado.")
               (Some 0) None (Some termino)
               (str "Error: No se pudieron generar embeddings para la búsqueda.")
               []),
         st)
    | candidates =>
        match semantic_search env term candidates MAX_CHUNKS_IN_RESPONSE st
        with
        | (Raise (HTTPException status detail), st') =>
            (Raise (HTTPException status detail), st')
        | (Raise e, st') =>
            (Raise (HTTPException 500
               (str "Error inesperado: " ++ exn_str env e)),
             st')
        | (Ok [], st') =>
            (Ok (mkSearch true
                   (str "No se encontraron resultados relevantes")
                   (Some 0) None (Some termino)
                   (str "No se encontraron chunks relevantes para '" ++ term
                    ++ str "'.")
                   []),
             st')
        | (Ok top_chunks, st') =>
            (Ok (answer (map (fun r => (scored_chunk r, Some (similarity r)))
                             top_chunks)),
             st')
        end
    end
  else
    (Ok (answer (map (fun c => (c, None))
                     (slice_to MAX_CHUNKS_IN_RESPONSE all))),
     st).

(** [buscar_normativa(termino)] *)
Definition buscar_normativa (env : Env) (termino : option pystr) (st : State)
    : result SearchResponse * State :=
  match FOLDER_ID env with
  | None => (Raise folder_not_configured, st)
  | Some fid =>
      if negb (truthy fid) then (Raise folder_not_configured, st)
      else
        match corpus_for_search env fid st with
        | (Raise e, st') => (Raise e, st')
        | (Ok (inr response), st') => (Ok response, st')
        | (Ok (inl all), st') => search_corpus env termino all st'
        end
  end.

End Ingestion.

(** ** Vocabulary of the statements and sample environments *)

Module Spec.

Import Ranker CacheStore Segmenter Search Ingestion.

(** A snapshot exists for a scope: the cache is not empty, it is the cache
    of that scope, and it carries a timestamp. *)
Definition snapshot_exists (cache : Cache) (scope : pystr) : Prop :=
  cache_truthy cache = true
  /\ folder_id cache = Some scope
  /\ exists ts, timestamp cache = Some ts.

Definition has_a_chunk (cache : Cache) : Prop :=
  exists c l, files_data cache = Some (c :: l).

(** The age of the snapshot at [now] is below the staleness bound. *)
Definition age_below_bound (now : Z) (cache : Cache) : Prop :=
  exists ts, timestamp cache = Some ts
             /\ (now - ts < timedelta_hours CACHE_TTL_HOURS)%Z.


(** A sample folder and environment: a database is configured, the folder
    lists no file. *)
Definition sample_folder : pystr := str "folder-1".

Definition env_no_files : Env :=
  mkEnv (Some sample_folder) (Some (str "postgresql://db")) true true
        (fun _ => true) true
        (fun _ _ => Raise (Failure (str "rate limit")))
        (Ok tt) (fun _ => Ok []) (fun _ => Ok []) (fun _ => Ok [])
        (fun b => b) (fun b => b) (fun _ detail => detail) (fun _ => [])
        1000 2000 3000.

Definition other_folder : pystr := str "folder-2".

Definition sample_chunk : Chunk :=
  mkChunk (str "f1_0") (str "Articulo 1") (Some [1%float; 0%float])
          (str "norma.pdf") (str "https://drive/f1") 0 1.

(** The chunk recorded for a file that could not be downloaded. *)
Definition null_chunk : Chunk :=
  mkChunk (str "f2_error") (str "[Error al procesar archivo: timeout]") None
          (str "anexo.pdf") (str "No disponible") 0 1.

(** A folder with one text file, and an embeddings API that refuses every
    request. *)
Definition txt_file : DriveFile :=
  mkFile (str "f3") (str "notas.txt") (str "text/plain") None.

Definition env_embed_fails : Env :=
  mkEnv (Some sample_folder) (Some (str "postgresql://db")) true true
        (fun _ => true) true
        (fun _ _ => Raise (Failure (str "rate limit")))
        (Ok tt) (fun _ => Ok [txt_file]) (fun _ => Ok []) (fun _ => Ok [])
        (fun b => b) (fun b => b) (fun _ detail => detail) (fun _ => [])
        1000 2000 3000.

(** The number of entries a file contributes to a run: one per chunk of its
    text, or the single error chunk when its download raised. *)
Definition units_of (env : Env) (file : DriveFile) : nat :=
  match file_content env file with
  | Ok content => length (split_text_into_chunks content 3000 300)
  | Raise _ => 1
  end.

Definition is_error_chunk (env : Env) (c : Chunk) : Prop :=
  exists file e, c = error_chunk env file e.

(** The rows of the other folders, which [save_chunks_to_db] keeps. *)
Definition rows_of_others (fid : pystr) (db : list DocumentChunk)
    : list DocumentChunk :=
  filter (fun r => negb (pystr_eqb (row_folder_id r) fid)) db.

(** Every entry of the corpus list has an embedding, or is the error chunk
    of a file. *)
Definition embedded_or_error (env : Env) (all : list Chunk) : Prop :=
  Forall (fun c => embedding c <> None \/ is_error_chunk env c) all.

(** The dictionary that [warmup_cache] returns after it has processed a
    non-empty listing into [acc]. *)
Definition warmup_result_of (acc : Acc) : WarmupResult :=
  let n := length (all_files_data acc) in
  mkWarmup
    (0 <? n)%nat
    (if (0 <? n)%nat then str "Caché precargado exitosamente con embeddings"
     else str "Error: No se generaron embeddings")
    (Some n) (Some (unique_docs (all_files_data acc)))
    None (str "warm") (Some CACHE_TTL_HOURS)
    (match embedding_errors acc with
     | [] => None
     | _ :: _ => Some (firstn 5 (embedding_errors acc))
     end)
    (match embedding_errors acc with
     | [] => None
     | _ :: _ => Some (length (embedding_errors acc))
     end).

(** The conditions under which [warmup_cache] starts a run over the folder
    [fid] and the listing answers [files]. *)
Definition run_starts (env : Env) (st : State) (fid : pystr)
    (files : list DriveFile) : Prop :=
  FOLDER_ID env = Some fid
  /\ truthy fid = true
  /\ openai_client env = true
  /\ is_cache_valid (now_valid env) (CACHE st) fid = false
  /\ drive_build env = Ok tt
  /\ drive_list env fid = Ok files.

(** The number of entries accounted for: corpus entries plus errors. *)
Definition accounted (a : Acc * State) : nat :=
  length (all_files_data (fst a)) + length (embedding_errors (fst a)).

(** A chunk made of one paragraph longer than [chunk_size]: the paragraph
    and its closing space, behind the seed taken from the previous chunk (at
    most [overlap] code points and a space; nothing for the first chunk). *)
Definition single_oversized_paragraph (text : pystr) (chunk_size overlap : Z)
    (c : pystr) : Prop :=
  exists seed p,
    In p (paragraphs text)
    /\ (chunk_size < len p)%Z
    /\ (len seed <= overlap + 1)%Z
    /\ c = strip (seed ++ p ++ [space]).

(** What holds of an emitted chunk. *)
Definition chunk_within_bound (text : pystr) (chunk_size overlap : Z)
    (c : pystr) : Prop :=
  (len c <= chunk_size + overlap + 1)%Z
  \/ single_oversized_paragraph text chunk_size overlap c.

(** What holds of the buffer between two turns of the segmenter's loop: it
    is empty, or it ends with the separating space behind a body that is
    short or made of a seed and one long paragraph. *)
Definition buffer_within_bound (text : pystr) (chunk_size overlap : Z)
    (cur : pystr) : Prop :=
  cur = []
  \/ exists body,
       cur = body ++ [space]
       /\ ((len body <= chunk_size + overlap + 1)%Z
           \/ exists seed p,
                In p (paragraphs text) /\ (chunk_size < len p)%Z
                /\ (len seed <= overlap + 1)%Z /\ body = seed ++ p).

(** Two paragraphs of five letters. *)
Definition two_paragraphs : pystr :=
  str "aaaaa" ++ [newline] ++ str "bbbbb".

(** The ranked list is in descending order of score. *)
Definition descending (out : list Scored) : Prop :=
  StronglySorted
    (fun a b => (similarity b <=? similarity a)%float = true) out.

Definition same_score (s : float) (r : Scored) : bool :=
  (similarity r =? s)%float.

(** Ties keep the order of the input: for every score, the entries of [out]
    with that score are the first entries of [results] with it, in the same
    order. *)
Definition ties_in_input_order (results out : list Scored) : Prop :=
  forall s, exists rest,
    filter (same_score s) results = filter (same_score s) out ++ rest.

(** Every candidate holds an embedding of the dimension of the query. *)
Definition same_dimension (q : Vector) (chunks : list Chunk) : Prop :=
  Forall (fun c => exists v, embedding c = Some v /\ length v = length q)
         chunks.

(** No candidate scores NaN against the query. *)
Definition comparable_scores (q : Vector) (chunks : list Chunk) : Prop :=
  forall c s, In c chunks -> chunk_similarity q c = Ok s -> is_nan s = false.

(** An environment whose embeddings API answers [q] to every request. *)
Definition env_query (q : Vector) : Env :=
  mkEnv (Some sample_folder) None true false
        (fun _ => true) true
        (fun _ _ => Ok q)
        (Ok tt) (fun _ => Ok []) (fun _ => Ok []) (fun _ => Ok [])
        (fun b => b) (fun b => b) (fun _ detail => detail) (fun _ => [])
        1000 2000 3000.

Definition chunk_of (name : string) (v : Vector) : Chunk :=
  mkChunk (str name) (str name) (Some v) (str "norma.pdf")
          (str "https://drive/f1") 0 1.

#[local] Set Warnings "-inexact-float".

(** The three chunks of the end-to-end example. *)
Definition chunk1 : Chunk := chunk_of "chunk1" [1; 0]%float.
Definition chunk2 : Chunk := chunk_of "chunk2" [0; 1]%float.
Definition chunk3 : Chunk := chunk_of "chunk3" [0.9; 0.1]%float.

(** A chunk whose dot product with [[1; 1]] overflows. *)
Definition chunk_huge : Chunk := chunk_of "huge" [1e308; 1e308]%float.
Definition chunk_ones : Chunk := chunk_of "ones" [1; 1]%float.

End Spec.

(** ** Vocabulary of the further properties *)

Module More.

Import Ranker CacheStore Segmenter Search Ingestion Spec.

(** The moment a cache written at [now_update env] stops being valid. *)
Definition expiry (env : Env) : Z :=
  (now_update env + timedelta_hours CACHE_TTL_HOURS)%Z.

(** A process that starts on a table: nothing cached, nothing sent yet. *)
Definition restart (st : State) : State := initial_state (DB st).

(** The rows of a folder, in the order of the table. *)
Definition rows_of_folder (fid : pystr) (db : list DocumentChunk)
    : list DocumentChunk :=
  filter (fun r => pystr_eqb (row_folder_id r) fid) db.

(** A second chunk with an embedding, under the key of [sample_chunk]. *)
Definition clashing_chunk : Chunk :=
  mkChunk (str "f1_0") (str "Articulo 2") (Some [0%float; 1%float])
          (str "norma.pdf") (str "https://drive/f1") 1 2.

(** A chunk as it comes back from the table: every field as it was written,
    the embedding through the [JSONB] column. *)
Definition read_back (c : Chunk) : Chunk :=
  mkChunk (chunk_id c) (text c)
          (option_map (map jsonb_number) (embedding c))
          (source_document c) (source_link c)
          (chunk_index c) (total_chunks c).

(** Every number of every embedding is below [1e16] in magnitude: [repr]
    prints it without exponent, and it comes back from the table as a
    [float]. *)
Definition plain_numbers (chunks : list Chunk) : bool :=
  forallb (fun c => match embedding c with
                    | Some v =>
                        forallb (fun x =>
                                   (abs x <? 10000000000000000)%float) v
                    | None => true
                    end)
          chunks.

(** A chunk whose embedding holds a negative zero. *)
Definition signed_zero_chunk : Chunk :=
  mkChunk (str "f1_1") (str "Articulo 3") (Some [(-0)%float; 1%float])
          (str "norma.pdf") (str "https://drive/f1") 1 2.

(** The only kind of exception the endpoints let out. *)
Definition is_http_500 (e : Exn) : Prop :=
  exists detail, e = HTTPException 500 detail.

(** The folder of [txt_file], with an embeddings API that answers. *)
Definition env_one_file : Env :=
  mkEnv (Some sample_folder) (Some (str "postgresql://db")) true true
        (fun _ => true) true
        (fun _ _ => Ok [1%float; 0%float])
        (Ok tt) (fun _ => Ok [txt_file]) (fun _ => Ok []) (fun _ => Ok [])
        (fun b => b) (fun b => b) (fun _ detail => detail) (fun _ => [])
        1000 2000 3000.

(** A Drive that cannot be reached. *)
Definition env_drive_down : Env :=
  mkEnv (Some sample_folder) (Some (str "postgresql://db")) true true
        (fun _ => true) true
        (fun _ _ => Ok [1%float; 0%float])
        (Raise (Failure (str "connection refused")))
        (fun _ => Ok [txt_file]) (fun _ => Ok []) (fun _ => Ok [])
        (fun b => b) (fun b => b) (fun _ detail => detail) (fun _ => [])
        1000 2000 3000.

(** Strings of whitespace only, and strings with a character that is
    not whitespace. *)
Definition blank (s : pystr) : Prop := Forall (fun c => isspace c = true) s.

Definition inked (s : pystr) : Prop :=
  exists c, In c s /\ isspace c = false.

(** A non-empty string that neither starts nor ends with whitespace. *)
Definition trimmed (s : pystr) : Prop :=
  (exists x r, s = x :: r /\ isspace x = false)
  /\ (exists q y, s = q ++ [y] /\ isspace y = false).

(** [p in s] for strings: [p] is a contiguous part of [s]. *)
Definition infix (p s : pystr) : Prop := exists a b, s = a ++ p ++ b.

(** [" ".join(ps)] *)
Fixpoint join_space (ps : list pystr) : pystr :=
  match ps with
  | [] => []
  | [p] => p
  | p :: rest => p ++ [space] ++ join_space rest
  end.

(** The text of two short articles, with blank lines and ragged spaces. *)
Definition short_text : pystr :=
  str "  Art. 1  " ++ [newline; newline] ++ str "Art. 2 " ++ [newline].

(** The paragraphs seen so far are each inside an emitted chunk or inside
    the buffer. *)
Definition covers (seen : list pystr) (st : list pystr * pystr) : Prop :=
  forall p, In p seen ->
    (exists c, In c (fst st) /\ infix p c) \/ infix p (snd st).

(** The number of requests a file costs: one per chunk of its text, none
    when its download raised. *)
Definition chunks_of (env : Env) (file : DriveFile) : nat :=
  match file_content env file with
  | Ok content => length (split_text_into_chunks content 3000 300)
  | Raise _ => 0
  end.

(** The decimal digits of a number, as code points. *)
Fixpoint digits_of (d : Decimal.uint) : pystr :=
  match d with
  | Decimal.Nil => []
  | Decimal.D0 d' => 48%N :: digits_of d'
  | Decimal.D1 d' => 49%N :: digits_of d'
  | Decimal.D2 d' => 50%N :: digits_of d'
  | Decimal.D3 d' => 51%N :: digits_of d'
  | Decimal.D4 d' => 52%N :: digits_of d'
  | Decimal.D5 d' => 53%N :: digits_of d'
  | Decimal.D6 d' => 54%N :: digits_of d'
  | Decimal.D7 d' => 55%N :: digits_of d'
  | Decimal.D8 d' => 56%N :: digits_of d'
  | Decimal.D9 d' => 57%N :: digits_of d'
  end.

(** The underscore that separates the id of the file from the rest of a
    [chunk_id]. *)
Definition underscore : N := 95%N.

(** What is known of the ids of the chunks assembled so far, while the
    chunks of the file [fid] are being embedded and [i] of them are done:
    an id is the id of an earlier file, or [fid] with an index below [i],
    followed by a tail without underscore. *)
Definition ids_owned (done : list pystr) (fid : pystr) (i : nat)
    (all : list Chunk) : Prop :=
  forall c, In c all ->
    (exists f t, In f done /\ ~ In underscore t
                 /\ chunk_id c = f ++ underscore :: t)
    \/ (exists j, j < i /\ chunk_id c = fid ++ underscore :: str_of_nat j).

(** Two files, the second of a type that is not supported. *)
Definition pdf_file : DriveFile :=
  mkFile (str "f4") (str "ley.pdf") (str "application/pdf") None.

Definition env_two_files : Env :=
  mkEnv (Some sample_folder) (Some (str "postgresql://db")) true true
        (fun _ => true) true
        (fun _ _ => Ok [1%float; 0%float])
        (Ok tt) (fun _ => Ok [pdf_file; txt_file])
        (fun _ => Raise (Failure (str "timeout"))) (fun _ => Ok [])
        (fun b => b) (fun b => b) (fun _ detail => detail) (fun _ => [])
        1000 2000 3000.

(** A state whose cache holds an error chunk and an embedded chunk of
    [sample_folder], written at time 2000. *)
Definition warm_state : State :=
  update_cache env_no_files sample_folder [null_chunk; sample_chunk]
               (initial_state []).

(** Each string followed by the separating space, one after the other:
    what the buffer of the segmenter holds when nothing is emitted. *)
Definition with_space (ps : list pystr) : pystr :=
  flat_map (fun p => p ++ [space]) ps.

(** Without overlap: the emitted chunks and the buffer are the paragraphs
    seen so far, and the buffer is empty or a trimmed string and a space. *)
Definition partitions (seen : list pystr) (st : list pystr * pystr) : Prop :=
  with_space (fst st) ++ snd st = with_space seen
  /\ (snd st = [] \/ exists x, trimmed x /\ snd st = x ++ [space]).

End More.

(* ================================================================== *)
(** * Part II. Properties                                              *)
(* ================================================================== *)

Import Ranker CacheStore Segmenter Search Ingestion Spec.

Unset Implicit Arguments.

(** ** Cache store *)

Lemma pystr_eqb_eq (a b : pystr) : pystr_eqb a b = true <-> a = b.
Proof.
  unfold pystr_eqb. destruct (pystr_eq_dec a b); split; congruence.
Qed.

Lemma pystr_eqb_refl (a : pystr) : pystr_eqb a a = true.
Proof. now apply pystr_eqb_eq. Qed.

Lemma is_cache_valid_folder now cache scope :
  is_cache_valid now cache scope = true -> folder_id cache = Some scope.
Proof.
  unfold is_cache_valid.
  destruct (cache_truthy cache); simpl; try discriminate.
  destruct (folder_id cache) as [f|]; simpl; try discriminate.
  destruct (pystr_eqb f scope) eqn:E; simpl; try discriminate.
  apply pystr_eqb_eq in E. now subst.
Qed.

(** C4. [is_cache_valid(scope)] is true exactly when a snapshot exists for
    the scope, the snapshot has at least one chunk, and its age is below the
    staleness bound; a snapshot with an empty chunk list is invalid however
    fresh it is. *)
Theorem is_cache_valid_iff :
  (forall now cache scope,
      is_cache_valid now cache scope = true
      <-> snapshot_exists cache scope /\ has_a_chunk cache
          /\ age_below_bound now cache)
  /\ (forall now ts scope n,
         is_cache_valid now (mkCache (Some ts) (Some scope) (Some []) n) scope
         = false).
Proof.
  split.
  - intros now cache scope. unfold snapshot_exists, has_a_chunk, age_below_bound.
    split.
    + intros H. pose proof (is_cache_valid_folder _ _ _ H) as Hf.
      unfold is_cache_valid in H. rewrite Hf in H.
      destruct (cache_truthy cache) eqn:Ht; simpl in H; try discriminate.
      rewrite pystr_eqb_refl in H. simpl in H.
      destruct (timestamp cache) as [ts|] eqn:Hts; try discriminate.
      destruct (files_data cache) as [[|c l]|] eqn:Hfd; simpl in H;
        try discriminate.
      apply Z.ltb_lt in H.
      repeat split; eauto. exists ts. split; [reflexivity | lia].
    + intros ((Ht & Hf & ts & Hts) & (c & l & Hfd) & (ts' & Hts' & Hage)).
      unfold is_cache_valid. rewrite Ht, Hf, Hts, Hfd. simpl.
      rewrite pystr_eqb_refl. simpl.
      rewrite Hts in Hts'. injection Hts' as <-.
      apply Z.ltb_lt. lia.
  - intros now ts scope n. unfold is_cache_valid. simpl.
    rewrite pystr_eqb_refl. reflexivity.
Qed.

(** C7. [invalidate_cache()] empties the volatile cache, so that no scope is
    valid afterwards at any time, and leaves the [document_chunks] table as
    it was. *)
Theorem invalidate_cache_volatile_only :
  forall st,
    CACHE (invalidate_cache st) = empty_cache
    /\ (forall now scope,
           is_cache_valid now (CACHE (invalidate_cache st)) scope = false)
    /\ DB (invalidate_cache st) = DB st.
Proof.
  intros st. repeat split.
Qed.





(** ** Refresh endpoint *)

(** C10. Whenever [warmup_cache] returns a dictionary, whatever its
    [success], [refresh_cache] returns [success = True] and
    [cache_status = "refreshed"], with the counts of the warm-up or 0 where
    it gave none. *)
Theorem refresh_cache_always_success :
  forall env st result st',
    warmup_cache env (invalidate_cache st) = (Ok result, st') ->
    exists r,
      refresh_cache env st = (Ok r, st')
      /\ r_success r = true
      /\ r_cache_status r = str "refreshed"
      /\ r_total_chunks r = get_or (w_total_chunks result) 0
      /\ r_total_documents r = get_or (w_total_documents result) 0.
Proof.
  intros env st result st' H. unfold refresh_cache. rewrite H.
  eexists. split; [reflexivity|]. repeat split.
Qed.

(** With no file in the folder the warm-up answers [success = False], and
    the refresh built on it [success = True]. *)
Lemma refresh_cache_always_success_witness :
  let st := initial_state [] in
  (exists result st',
      warmup_cache env_no_files (invalidate_cache st) = (Ok result, st')
      /\ w_success result = false
      /\ w_cache_status result = str "empty")
  /\ (exists r st',
         refresh_cache env_no_files st = (Ok r, st')
         /\ r_success r = true
         /\ r_cache_status r = str "refreshed"
         /\ r_total_chunks r = 0).
Proof.
  intros st.
  assert (W : warmup_cache env_no_files (invalidate_cache st)
              = (Ok (mkWarmup false
                       (str "No hay archivos en la carpeta para precargar")
                       None None (Some 0) (str "empty") None None None),
                 invalidate_cache st)).
  { vm_compute. reflexivity. }
  split.
  - do 2 eexists. split; [exact W|]. split; reflexivity.
  - destruct (refresh_cache_always_success env_no_files st _ _ W)
      as (r & Hr & Hs & Hc & Ht & _).
    exists r, (invalidate_cache st). repeat split; assumption.
Defined.

(** ** Persistence of a replaced cache *)

Lemma rows_to_add_filter created fid chunks :
  rows_to_add created fid chunks
  = map (row_of_chunk created fid) (chunks_with_embeddings chunks).
Proof.
  induction chunks as [|c rest IH]; simpl; [reflexivity|].
  destruct (embedding c); simpl; now rewrite IH.
Qed.

Lemma save_chunks_to_db_cases env chunks fid db :
  save_chunks_to_db env chunks fid db = db
  \/ save_chunks_to_db env chunks fid db
     = rows_of_others fid db ++ rows_to_add (now_insert env) fid chunks.
Proof.
  unfold save_chunks_to_db, table_after, rows_of_others.
  destruct (negb (SessionLocal env)); [now left|].
  destruct (transaction_commits env chunks fid db); [now right | now left].
Qed.

Lemma save_chunks_to_db_commit env chunks fid db :
  SessionLocal env = true ->
  transaction_commits env chunks fid db = true ->
  save_chunks_to_db env chunks fid db
  = rows_of_others fid db ++ rows_to_add (now_insert env) fid chunks.
Proof.
  intros Hs Hk. unfold save_chunks_to_db, table_after, rows_of_others in *.
  now rewrite Hs, Hk.
Qed.

Lemma save_chunks_to_db_rollback env chunks fid db :
  transaction_commits env chunks fid db = false ->
  save_chunks_to_db env chunks fid db = db.
Proof.
  intros Hk. unfold save_chunks_to_db. rewrite Hk.
  now destruct (negb (SessionLocal env)).
Qed.

Lemma transaction_commits_key env chunks fid db :
  transaction_commits env chunks fid db = true ->
  primary_key_ok
    (rows_of_others fid db ++ rows_to_add (now_insert env) fid chunks) = true.
Proof.
  unfold transaction_commits, table_after, rows_of_others. intros H.
  apply andb_true_iff in H. destruct H as [H _].
  apply andb_true_iff in H. destruct H as [H _].
  apply andb_true_iff in H. now destruct H as [_ H].
Qed.

Lemma transaction_commits_folder env chunks fid db :
  transaction_commits env chunks fid db = true -> text_storable fid = true.
Proof.
  unfold transaction_commits. intros H.
  apply andb_true_iff in H. destruct H as [H _].
  apply andb_true_iff in H. destruct H as [H _].
  apply andb_true_iff in H. now destruct H as [H _].
Qed.

(** ** Ordering and truncation of the ranked list *)

Section SortFacts.

Variable A : Type.
Variable key : A -> float.

Lemma insert_desc_perm x l : Permutation (x :: l) (insert_desc key x l).
Proof.
  induction l as [|y l IH]; simpl; [reflexivity|].
  destruct (key x <? key y)%float; [|reflexivity].
  rewrite perm_swap. now apply perm_skip.
Qed.

Lemma sort_desc_perm l : Permutation l (sort_desc key l).
Proof.
  induction l as [|x l IH]; simpl; [reflexivity|].
  rewrite <- insert_desc_perm. now apply perm_skip.
Qed.

Lemma sort_desc_length l : length (sort_desc key l) = length l.
Proof. symmetry. apply Permutation_length, sort_desc_perm. Qed.

End SortFacts.

Lemma slice_to_incl (A : Type) k (l : list A) x :
  In x (slice_to k l) -> In x l.
Proof.
  unfold slice_to.
  destruct (0 <=? k)%Z; intros H;
    match type of H with
    | In _ (firstn ?n _) => rewrite <- (firstn_skipn n l)
    end; apply in_or_app; now left.
Qed.

Lemma score_all_chunks q chunks results :
  score_all q chunks = Ok results -> map scored_chunk results = chunks.
Proof.
  revert results. induction chunks as [|c rest IH]; simpl; intros results H.
  - injection H as <-. reflexivity.
  - destruct (chunk_similarity q c) as [sim|e]; simpl in H; [|discriminate].
    destruct (score_all q rest) as [rs|e]; simpl in H; [|discriminate].
    injection H as <-. simpl. f_equal. now apply IH.
Qed.

Lemma rank_chunks_incl q chunks top_k out r :
  rank q chunks top_k = Ok out -> In r out -> In (scored_chunk r) chunks.
Proof.
  unfold rank. intros H Hr.
  destruct (score_all q chunks) as [results|e] eqn:E; simpl in H;
    [|discriminate].
  injection H as <-.
  apply slice_to_incl in Hr.
  apply (Permutation_in _
           (Permutation_sym (sort_desc_perm _ similarity results))) in Hr.
  rewrite <- (score_all_chunks _ _ _ E). now apply in_map.
Qed.

Lemma semantic_search_chunks_incl env query chunks top_k st out st' r :
  semantic_search env query chunks top_k st = (Ok out, st') ->
  In r out -> In (scored_chunk r) chunks.
Proof.
  unfold semantic_search.
  destruct (generate_embedding env query st) as [[q|e] st1]; intros H Hr.
  - injection H as H _. eapply rank_chunks_incl; eassumption.
  - discriminate.
Qed.

Lemma search_corpus_only_embedded env termino all st resp st' :
  env_truthy termino = true ->
  search_corpus env termino all st = (Ok resp, st') ->
  Forall (fun p => embedding (fst p) <> None /\ In (fst p) all)
         (s_chunks resp).
Proof.
  intros Ht H. unfold search_corpus in H. rewrite Ht in H.
  destruct (chunks_with_embeddings all) as [|c0 cands] eqn:Ec.
  - injection H as <- _. constructor.
  - destruct (semantic_search env _ (c0 :: cands) MAX_CHUNKS_IN_RESPONSE st)
      as [[out|e] st1] eqn:Es.
    + assert (Hall : Forall (fun p => embedding (fst p) <> None
                                      /\ In (fst p) all)
                       (map (fun r => (scored_chunk r, Some (similarity r)))
                            out)).
      { apply Forall_forall. intros p Hp. apply in_map_iff in Hp.
        destruct Hp as (r & <- & Hr). simpl.
        pose proof (semantic_search_chunks_incl _ _ _ _ _ _ _ _ Es Hr) as Hin.
        rewrite <- Ec in Hin. apply filter_In in Hin.
        destruct Hin as [Hin He]. split; [|assumption].
        destruct (embedding (scored_chunk r)); congruence. }
      destruct out as [|r0 out']; injection H as <- _; simpl.
      * constructor.
      * exact Hall.
    + destruct e; discriminate.
Qed.

(** ** Ingestion run *)

Lemma embed_chunk_failure env file n i t acc st e st' :
  generate_embedding env t st = (Raise e, st') ->
  embed_chunk env file n i t (acc, st)
  = (mkAcc (all_files_data acc)
           (embedding_errors acc
            ++ [file_name file ++ str " chunk " ++ str_of_nat i ++ str ": "
                ++ exn_str env e]),
     st').
Proof.
  intros H. unfold embed_chunk. now rewrite H.
Qed.

Lemma embed_chunk_success env file n i t acc st emb st' :
  generate_embedding env t st = (Ok emb, st') ->
  embed_chunk env file n i t (acc, st)
  = (mkAcc (all_files_data acc
            ++ [mkChunk (file_id file ++ str "_" ++ str_of_nat i) t (Some emb)
                        (file_name file) (web_link file) i n])
           (embedding_errors acc),
     st').
Proof.
  intros H. unfold embed_chunk. now rewrite H.
Qed.

Lemma embed_chunk_accounted env file n i t a :
  accounted (embed_chunk env file n i t a) = S (accounted a).
Proof.
  destruct a as [acc st]. unfold embed_chunk, accounted.
  destruct (generate_embedding env t st) as [[emb|e] st']; simpl;
    rewrite length_app; simpl; lia.
Qed.

Lemma embed_chunk_embedded env file n i t a :
  embedded_or_error env (all_files_data (fst a)) ->
  embedded_or_error env (all_files_data (fst (embed_chunk env file n i t a))).
Proof.
  destruct a as [acc st]. unfold embed_chunk, embedded_or_error.
  destruct (generate_embedding env t st) as [[emb|e] st']; simpl; intros H.
  - apply Forall_app. split; [assumption|].
    constructor; [|constructor]. left. simpl. discriminate.
  - assumption.
Qed.

Lemma embed_chunks_accounted env file n chunks : forall i a,
  accounted (embed_chunks env file n i chunks a)
  = accounted a + length chunks.
Proof.
  induction chunks as [|t rest IH]; intros i a; simpl.
  - lia.
  - rewrite IH, embed_chunk_accounted. lia.
Qed.

Lemma embed_chunks_embedded env file n chunks : forall i a,
  embedded_or_error env (all_files_data (fst a)) ->
  embedded_or_error env
    (all_files_data (fst (embed_chunks env file n i chunks a))).
Proof.
  induction chunks as [|t rest IH]; intros i a H; simpl.
  - assumption.
  - apply IH. now apply embed_chunk_embedded.
Qed.

Lemma process_file_accounted env a file :
  accounted (process_file env a file) = accounted a + units_of env file.
Proof.
  unfold process_file, units_of.
  destruct (file_content env file) as [content|e].
  - apply embed_chunks_accounted.
  - destruct a as [acc st]. unfold accounted. simpl.
    rewrite length_app. simpl. lia.
Qed.

Lemma process_file_embedded env a file :
  embedded_or_error env (all_files_data (fst a)) ->
  embedded_or_error env (all_files_data (fst (process_file env a file))).
Proof.
  unfold process_file.
  destruct (file_content env file) as [content|e]; intros H.
  - now apply embed_chunks_embedded.
  - destruct a as [acc st]. simpl in *. apply Forall_app.
    split; [assumption|]. constructor; [|constructor].
    right. now exists file, e.
Qed.

Lemma fold_process_file env files : forall a,
  accounted (fold_left (process_file env) files a)
  = accounted a + list_sum (map (units_of env) files)
  /\ (embedded_or_error env (all_files_data (fst a)) ->
      embedded_or_error env
        (all_files_data (fst (fold_left (process_file env) files a)))).
Proof.
  induction files as [|file rest IH]; intros a; simpl.
  - split; [lia | auto].
  - destruct (IH (process_file env a file)) as [Hn He]. split.
    + rewrite Hn, process_file_accounted. lia.
    + intros H. apply He. now apply process_file_embedded.
Qed.

(** The result of a run that gets through the listing. *)
Lemma warmup_cache_run env st fid files :
  run_starts env st fid files -> files <> [] ->
  let a := process_files env files st in
  warmup_cache env st
  = (Ok (warmup_result_of (fst a)),
     update_cache env fid (all_files_data (fst a)) (snd a)).
Proof.
  intros (Hf & Ht & Ho & Hv & Hb & Hl) Hne a. subst a.
  unfold warmup_cache, get_drive_service, list_files_in_folder.
  rewrite Hf, Ht, Ho, Hv, Hb, Hl. simpl.
  destruct files as [|f0 files]; [congruence|].
  destruct (process_files env (f0 :: files) st) as [acc st1]. simpl.
  unfold warmup_result_of, slice_to. simpl. reflexivity.
Qed.

Lemma warmup_cache_empty_listing env st fid :
  run_starts env st fid [] ->
  warmup_cache env st
  = (Ok (mkWarmup false (str "No hay archivos en la carpeta para precargar")
                  None None (Some 0) (str "empty") None None None),
     st).
Proof.
  intros (Hf & Ht & Ho & Hv & Hb & Hl).
  unfold warmup_cache, get_drive_service, list_files_in_folder.
  now rewrite Hf, Ht, Ho, Hv, Hb, Hl.
Qed.

(** C2 (amended). A failed embedding aborts neither the document nor the
    run, and its message is added to the error list; but the chunk is left
    out of the corpus list (it is not recorded with a null embedding and is
    not counted in [total_chunks]).  Every chunk of every file ends up either
    as one corpus entry with an embedding or as one error message, the only
    entries without embedding being the error chunks of files whose download
    failed; and the run returns its result with the count of the corpus list
    and, when there were failures, the first five messages and their
    number. *)
Theorem embedding_failure_drops_chunk :
  (forall env file n i t acc st e st',
      generate_embedding env t st = (Raise e, st') ->
      embed_chunk env file n i t (acc, st)
      = (mkAcc (all_files_data acc)
               (embedding_errors acc
                ++ [file_name file ++ str " chunk " ++ str_of_nat i
                    ++ str ": " ++ exn_str env e]),
         st'))
  /\ (forall env files st,
         let a := process_files env files st in
         length (all_files_data (fst a)) + length (embedding_errors (fst a))
         = list_sum (map (units_of env) files)
         /\ embedded_or_error env (all_files_data (fst a)))
  /\ (forall env st fid files,
         run_starts env st fid files -> files <> [] ->
         let a := process_files env files st in
         exists result st',
           warmup_cache env st = (Ok result, st')
           /\ files_data (CACHE st') = Some (all_files_data (fst a))
           /\ w_total_chunks result = Some (length (all_files_data (fst a)))
           /\ (embedding_errors (fst a) <> [] ->
               w_embedding_errors result
               = Some (firstn 5 (embedding_errors (fst a)))
               /\ w_total_errors result
                  = Some (length (embedding_errors (fst a))))).
Proof.
  split; [|split].
  - intros. now apply embed_chunk_failure.
  - intros env files st a. subst a. unfold process_files.
    destruct (fold_process_file env files (mkAcc [] [], st)) as [Hn He].
    split.
    + exact Hn.
    + apply He. constructor.
  - intros env st fid files Hrun Hne a.
    exists (warmup_result_of (fst a)),
           (update_cache env fid (all_files_data (fst a)) (snd a)).
    split; [now apply warmup_cache_run|].
    split; [reflexivity|]. split; [reflexivity|].
    intros Herr. unfold warmup_result_of. simpl.
    destruct (embedding_errors (fst a)); [congruence|]. now split.
Qed.

(** A run over one file whose only chunk cannot be embedded: it returns, and
    the error is reported. *)
Lemma embedding_failure_drops_chunk_witness :
  run_starts env_embed_fails (initial_state []) sample_folder [txt_file]
  /\ exists result st',
       warmup_cache env_embed_fails (initial_state []) = (Ok result, st')
       /\ files_data (CACHE st') = Some []
       /\ w_total_chunks result = Some 0.
Proof.
  assert (Hrun : run_starts env_embed_fails (initial_state []) sample_folder
                            [txt_file]).
  { repeat split. }
  split; [exact Hrun|].
  destruct (proj2 (proj2 embedding_failure_drops_chunk)
              env_embed_fails (initial_state []) sample_folder [txt_file]
              Hrun ltac:(discriminate))
    as (result & st' & Hw & Hc & Ht & _).
  exists result, st'. split; [exact Hw|]. split.
  - rewrite Hc. vm_compute. reflexivity.
  - rewrite Ht. vm_compute. reflexivity.
Defined.

(** The claim as written fails: the text of [notas.txt] makes one chunk, its
    embedding is refused, and the run ends with an empty corpus list and
    [total_chunks = 0]: the chunk was not recorded with a null embedding. *)
Lemma failed_chunk_not_in_corpus :
  exists result st',
    split_text_into_chunks
      (str "[Tipo de archivo no soportado: text/plain]") 3000 300
    = [str "[Tipo de archivo no soportado: text/plain]"]
    /\ warmup_cache env_embed_fails (initial_state []) = (Ok result, st')
    /\ files_data (CACHE st') = Some []
    /\ w_total_chunks result = Some 0
    /\ w_embedding_errors result
       = Some [str "notas.txt chunk 0: Error al generar embedding: rate limit"]
    /\ w_total_errors result = Some 1.
Proof.
  do 2 eexists. split; [vm_compute; reflexivity|].
  split; [vm_compute; reflexivity|].
  repeat split.
Qed.

(** C3 (amended). When the listing succeeds the run returns a result, but
    its [success] is true only if at least one chunk was assembled: an empty
    listing gives [success = False] with status ["empty"] and
    [total_files = 0], without any count of chunks or of documents and
    without error summary, and leaves the state as it was; a run whose
    corpus list is empty gives [success = False] too.  After a non-empty
    listing the result carries the number of chunks and of documents; the
    first five error messages and the number of errors are present only when
    at least one embedding failed. *)
Theorem warmup_success_iff_chunks :
  forall env st fid files,
    run_starts env st fid files ->
    let a := process_files env files st in
    let all := all_files_data (fst a) in
    let errors := embedding_errors (fst a) in
    exists result st',
      warmup_cache env st = (Ok result, st')
      /\ (files = [] ->
          w_success result = false /\ w_cache_status result = str "empty"
          /\ w_total_files result = Some 0
          /\ w_total_chunks result = None
          /\ w_total_documents result = None
          /\ w_embedding_errors result = None
          /\ w_total_errors result = None
          /\ st' = st)
      /\ (files <> [] ->
          (w_success result = true <-> 0 < length all)
          /\ w_total_chunks result = Some (length all)
          /\ w_total_documents result = Some (unique_docs all)
          /\ (errors = [] ->
              w_embedding_errors result = None
              /\ w_total_errors result = None)
          /\ (errors <> [] ->
              w_embedding_errors result = Some (firstn 5 errors)
              /\ length (firstn 5 errors) <= 5
              /\ w_total_errors result = Some (length errors))).
Proof.
  intros env st fid files Hrun a all errors.
  destruct files as [|f0 files].
  - eexists. eexists.
    split; [exact (warmup_cache_empty_listing env st fid Hrun)|].
    split; [intros _; repeat split | congruence].
  - exists (warmup_result_of (fst a)),
           (update_cache env fid all (snd a)).
    split; [apply warmup_cache_run; [assumption | discriminate]|].
    split; [discriminate|]. intros _.
    unfold warmup_result_of. simpl. fold all. fold errors.
    split; [apply Nat.ltb_lt|]. split; [reflexivity|]. split; [reflexivity|].
    split.
    + intros ->. now split.
    + intros Herr. split; [|split].
      * destruct errors; [congruence | reflexivity].
      * change (length (firstn 5 errors) <= 5).
        rewrite length_firstn. apply Nat.le_min_l.
      * destruct errors; [congruence | reflexivity].
Qed.

(** The run over [notas.txt] with a failing embeddings API. *)
Lemma warmup_success_iff_chunks_witness :
  run_starts env_embed_fails (initial_state []) sample_folder [txt_file]
  /\ exists result st',
       warmup_cache env_embed_fails (initial_state []) = (Ok result, st')
       /\ w_total_chunks result = Some 0.
Proof.
  assert (Hrun : run_starts env_embed_fails (initial_state []) sample_folder
                            [txt_file]).
  { repeat split. }
  split; [exact Hrun|].
  destruct (warmup_success_iff_chunks env_embed_fails (initial_state [])
              sample_folder [txt_file] Hrun)
    as (result & st' & Hw & _ & Hne).
  exists result, st'. split; [exact Hw|].
  destruct (Hne ltac:(discriminate)) as (_ & Ht & _).
  rewrite Ht. vm_compute. reflexivity.
Defined.

(** The claim as written fails: the listing succeeds in both runs, with one
    file whose embedding is refused and with no file at all, and both report
    [success = False]; the second carries no chunk count and no error
    summary. *)
Lemma listing_ok_success_false :
  (exists result st',
      drive_list env_embed_fails sample_folder = Ok [txt_file]
      /\ warmup_cache env_embed_fails (initial_state []) = (Ok result, st')
      /\ w_success result = false
      /\ w_total_errors result = Some 1)
  /\ (exists result st',
         drive_list env_no_files sample_folder = Ok []
         /\ warmup_cache env_no_files (initial_state []) = (Ok result, st')
         /\ w_success result = false
         /\ w_total_chunks result = None
         /\ w_total_errors result = None).
Proof.
  split; do 2 eexists.
  - split; [reflexivity|]. split; [vm_compute; reflexivity|]. now split.
  - split; [reflexivity|]. split; [vm_compute; reflexivity|]. repeat split.
Qed.

(** ** Segmenter *)

Lemma lstrip_length s : length (lstrip s) <= length s.
Proof.
  induction s as [|c s IH]; simpl; [lia|].
  destruct (isspace c); simpl; lia.
Qed.

Lemma rstrip_length s : length (rstrip s) <= length s.
Proof.
  unfold rstrip. rewrite length_rev.
  etransitivity; [apply lstrip_length|]. now rewrite length_rev.
Qed.

Lemma rstrip_space s : rstrip (s ++ [space]) = rstrip s.
Proof.
  unfold rstrip. rewrite rev_app_distr. reflexivity.
Qed.

(** Stripping a buffer that ends with the separating space removes at least
    that space. *)
Lemma strip_space_length s : (len (strip (s ++ [space])) <= len s)%Z.
Proof.
  unfold strip, len. rewrite rstrip_space.
  pose proof (lstrip_length (rstrip s)). pose proof (rstrip_length s). lia.
Qed.

Lemma slice_last_length k s : (0 < k)%Z -> (len (slice_last k s) <= k)%Z.
Proof.
  intros Hk. unfold slice_last, len. rewrite length_skipn. lia.
Qed.

Section ChunkBound.

Variable text : pystr.
Variables chunk_size overlap : Z.
Hypothesis overlap_nonneg : (0 <= overlap)%Z.

Local Abbreviation good := (chunk_within_bound text chunk_size overlap).
Local Abbreviation buffer_ok := (buffer_within_bound text chunk_size overlap).

Lemma buffer_ok_strip cur : buffer_ok cur -> cur <> [] -> good (strip cur).
Proof.
  intros [->|(body & -> & [Hlen|(seed & p & Hp & Hlong & Hseed & ->)])] Hne.
  - congruence.
  - left. pose proof (strip_space_length body). lia.
  - right. exists seed, p. rewrite <- app_assoc. auto.
Qed.

Lemma buffer_ok_add seed p :
  In p (paragraphs text) -> (len seed <= overlap + 1)%Z ->
  buffer_ok (seed ++ p ++ [space]).
Proof.
  intros Hp Hseed. right. exists (seed ++ p).
  split; [now rewrite app_assoc|].
  destruct (Z_le_gt_dec (len p) chunk_size) as [Hle|Hgt].
  - left. unfold len in *. rewrite length_app. lia.
  - right. exists seed, p. repeat split; auto. lia.
Qed.

Lemma step_invariant chunks cur p :
  In p (paragraphs text) ->
  Forall good chunks -> buffer_ok cur ->
  Forall good (fst (step chunk_size overlap (chunks, cur) p))
  /\ buffer_ok (snd (step chunk_size overlap (chunks, cur) p)).
Proof.
  intros Hp Hchunks Hcur. unfold step.
  destruct ((len cur + len p >? chunk_size)%Z && truthy cur) eqn:Hcond; simpl.
  - apply andb_prop in Hcond. destruct Hcond as [_ Htruthy].
    assert (Hne : cur <> []) by (destruct cur; [discriminate | congruence]).
    split.
    + apply Forall_app. split; [assumption|].
      constructor; [|constructor]. now apply buffer_ok_strip.
    + destruct (overlap >? 0)%Z eqn:Hov.
      * apply (buffer_ok_add (slice_last overlap cur ++ [space]) p);
          [assumption|].
        apply Z.gtb_lt in Hov.
        pose proof (slice_last_length overlap cur Hov).
        unfold len in *. rewrite length_app. simpl. lia.
      * apply (buffer_ok_add [] p); [assumption|]. unfold len. simpl. lia.
  - split; [assumption|].
    destruct cur as [|c cur'].
    + apply (buffer_ok_add [] p); [assumption|]. unfold len. simpl. lia.
    + rewrite andb_true_r, Z.gtb_ltb in Hcond.
      apply Z.ltb_ge in Hcond.
      right. exists ((c :: cur') ++ p). split; [now rewrite app_assoc|].
      left. unfold len in *. rewrite length_app. lia.
Qed.

Lemma fold_step_invariant ps : forall chunks cur,
  (forall p, In p ps -> In p (paragraphs text)) ->
  Forall good chunks -> buffer_ok cur ->
  Forall good (fst (fold_left (step chunk_size overlap) ps (chunks, cur)))
  /\ buffer_ok (snd (fold_left (step chunk_size overlap) ps (chunks, cur))).
Proof.
  induction ps as [|p ps IH]; intros chunks cur Hin Hchunks Hcur.
  - now split.
  - change (fold_left (step chunk_size overlap) (p :: ps) (chunks, cur))
      with (fold_left (step chunk_size overlap) ps
              (step chunk_size overlap (chunks, cur) p)).
    destruct (step_invariant chunks cur p) as [H1 H2]; auto.
    { apply Hin. now left. }
    destruct (step chunk_size overlap (chunks, cur) p) as [chunks' cur'].
    apply IH; auto. intros q Hq. apply Hin. now right.
Qed.

Lemma split_text_into_chunks_good :
  Forall good (split_text_into_chunks text chunk_size overlap).
Proof.
  unfold split_text_into_chunks.
  destruct (negb (truthy text) || (len (strip text) =? 0)%Z); [constructor|].
  destruct (fold_step_invariant (paragraphs text) [] []) as [H1 H2]; auto.
  { now left. }
  destruct (fold_left _ _ _) as [chunks cur]. simpl in *.
  destruct (truthy (strip cur)) eqn:Ht; [|assumption].
  apply Forall_app. split; [assumption|].
  constructor; [|constructor]. apply buffer_ok_strip; [assumption|].
  intros ->. discriminate.
Qed.

End ChunkBound.

(** C5 (amended). For [chunk_size > 0] and [overlap >= 0] no chunk is longer
    than [chunk_size + overlap + 1] code points (the seed, the space that
    separates it from the paragraph, and paragraphs that fit), except a chunk
    made of a single paragraph longer than [chunk_size] behind its seed. *)
Theorem chunk_length_bound :
  forall text chunk_size overlap,
    (0 < chunk_size)%Z -> (0 <= overlap)%Z ->
    forall c,
      In c (split_text_into_chunks text chunk_size overlap) ->
      (len c <= chunk_size + overlap + 1)%Z
      \/ single_oversized_paragraph text chunk_size overlap c.
Proof.
  intros text chunk_size overlap _ Hov c Hc.
  pose proof (split_text_into_chunks_good text chunk_size overlap Hov) as H.
  rewrite Forall_forall in H. now apply H.
Qed.

(** The second chunk of the two paragraphs reaches the bound. *)
Lemma chunk_length_bound_witness :
  In (str "a  bbbbb") (split_text_into_chunks two_paragraphs 5 2)
  /\ ((len (str "a  bbbbb") <= 5 + 2 + 1)%Z
      \/ single_oversized_paragraph two_paragraphs 5 2 (str "a  bbbbb")).
Proof.
  assert (Hin : In (str "a  bbbbb") (split_text_into_chunks two_paragraphs 5 2)).
  { vm_compute. right. left. reflexivity. }
  split; [exact Hin|].
  apply (chunk_length_bound two_paragraphs 5 2); [lia | lia | exact Hin].
Defined.

(** The claim as written fails: with [chunk_size = 5] and [overlap = 2] the
    two paragraphs of five letters give the chunks ["aaaaa"] and
    ["a  bbbbb"]; the second has 8 code points, more than [5 + 2], and no
    paragraph of the text is longer than [chunk_size]. *)
Lemma chunk_exceeds_size_plus_overlap :
  split_text_into_chunks two_paragraphs 5 2 = [str "aaaaa"; str "a  bbbbb"]
  /\ paragraphs two_paragraphs = [str "aaaaa"; str "bbbbb"]
  /\ exists c,
       In c (split_text_into_chunks two_paragraphs 5 2)
       /\ (len c = 8)%Z /\ (5 + 2 < len c)%Z
       /\ Forall (fun p => (len p <= 5)%Z) (paragraphs two_paragraphs).
Proof.
  split; [vm_compute; reflexivity|].
  split; [vm_compute; reflexivity|].
  exists (str "a  bbbbb"). split; [vm_compute; right; left; reflexivity|].
  split; [reflexivity|]. split; [reflexivity|].
  vm_compute.
  repeat constructor; discriminate.
Qed.

(** ** Similarity ranker *)

(** *** Order of binary64 numbers, from the specification of the primitive
        comparisons *)

Ltac cmp_cases :=
  repeat match goal with
  | |- context [Z.compare ?a ?b] => destruct (Z.compare_spec a b)
  | H : context [Z.compare ?a ?b] |- _ => destruct (Z.compare_spec a b)
  | |- context [Pos.compare_cont Eq ?a ?b] =>
      change (Pos.compare_cont Eq a b) with (Pos.compare a b);
      destruct (Pos.compare_spec a b)
  | H : context [Pos.compare_cont Eq ?a ?b] |- _ =>
      change (Pos.compare_cont Eq a b) with (Pos.compare a b) in H;
      destruct (Pos.compare_spec a b)
  end.

Ltac sf_solve :=
  simpl in *; try discriminate; try reflexivity;
  cmp_cases; simpl in *; subst;
  try discriminate; try reflexivity; try lia.

Lemma SFleb_trans a b c :
  SFleb a b = true -> SFleb b c = true -> SFleb a c = true.
Proof.
  unfold SFleb.
  destruct a as [[|]|[|]| |[|] ma ea], b as [[|]|[|]| |[|] mb eb],
           c as [[|]|[|]| |[|] mc ec]; sf_solve.
Qed.

Lemma SFltb_false_leb a b :
  a <> S754_nan -> b <> S754_nan -> SFltb a b = false -> SFleb b a = true.
Proof.
  unfold SFltb, SFleb. intros Ha Hb.
  destruct a as [[|]|[|]| |[|] ma ea], b as [[|]|[|]| |[|] mb eb];
    try congruence; sf_solve.
Qed.

Lemma SFltb_leb a b : SFltb a b = true -> SFleb a b = true.
Proof.
  unfold SFltb, SFleb.
  destruct (SFcompare a b) as [[| |]|]; congruence.
Qed.

Lemma SFltb_eqb_absurd a b s :
  SFltb a b = true -> SFeqb a s = true -> SFeqb b s = true -> False.
Proof.
  unfold SFltb, SFeqb.
  destruct a as [[|]|[|]| |[|] ma ea], b as [[|]|[|]| |[|] mb eb],
           s as [[|]|[|]| |[|] ms es]; sf_solve.
Qed.

Lemma not_nan_spec x : is_nan x = false -> Prim2SF x <> S754_nan.
Proof.
  unfold is_nan. rewrite FloatAxioms.eqb_spec. intros H E.
  rewrite E in H. discriminate.
Qed.

Lemma float_leb_trans x y z :
  (x <=? y)%float = true -> (y <=? z)%float = true -> (x <=? z)%float = true.
Proof. rewrite !leb_spec. apply SFleb_trans. Qed.

Lemma float_ltb_false_leb x y :
  is_nan x = false -> is_nan y = false ->
  (x <? y)%float = false -> (y <=? x)%float = true.
Proof.
  intros Hx Hy. rewrite ltb_spec, leb_spec.
  apply SFltb_false_leb; now apply not_nan_spec.
Qed.

Lemma float_ltb_leb x y : (x <? y)%float = true -> (x <=? y)%float = true.
Proof. rewrite ltb_spec, leb_spec. apply SFltb_leb. Qed.

Lemma float_ltb_eqb_absurd x y s :
  (x <? y)%float = true -> (x =? s)%float = true -> (y =? s)%float = true ->
  False.
Proof. rewrite ltb_spec, !FloatAxioms.eqb_spec. apply SFltb_eqb_absurd. Qed.

(** *** Cosine similarity *)

Lemma np_dot_same_length u v :
  length u = length v -> np_dot u v = Ok (dot_from 0%float u v).
Proof.
  intros H. unfold np_dot. now rewrite H, Nat.eqb_refl.
Qed.

Lemma cosine_similarity_total u v :
  length u = length v -> exists s, cosine_similarity u v = Ok s.
Proof.
  intros H. unfold cosine_similarity. rewrite (np_dot_same_length _ _ H).
  simpl. destruct (_ || _); eauto.
Qed.

Lemma dot_from_zeros (v : Vector) :
  Forall (fun x => x = 0%float) v -> dot_from 0%float v v = 0%float.
Proof.
  induction 1 as [|x v Hx _ IH]; simpl; [reflexivity|].
  subst x. exact IH.
Qed.

(** The norm of a vector of zeros is zero. *)
Lemma norm_of_zeros (v : Vector) :
  Forall (fun x => x = 0%float) v -> np_linalg_norm v = 0%float.
Proof.
  intros H. unfold np_linalg_norm. now rewrite dot_from_zeros.
Qed.

(** C8 (amended). For two vectors of the same length, if the norm of either
    is zero then [cosine_similarity] returns exactly [0.0], through the guard
    that precedes the division: it does not raise and the value is not
    NaN. *)
Theorem cosine_similarity_zero_norm :
  forall vec1 vec2,
    length vec1 = length vec2 ->
    (np_linalg_norm vec1 =? 0)%float = true
    \/ (np_linalg_norm vec2 =? 0)%float = true ->
    cosine_similarity vec1 vec2 = Ok 0%float
    /\ is_nan 0%float = false.
Proof.
  intros vec1 vec2 Hlen Hzero. split; [|reflexivity].
  unfold cosine_similarity. rewrite (np_dot_same_length _ _ Hlen). simpl.
  destruct Hzero as [-> | ->]; [reflexivity|].
  now rewrite orb_true_r.
Qed.

Lemma cosine_similarity_zero_norm_witness :
  np_linalg_norm [0; 0]%float = 0%float
  /\ cosine_similarity [0; 0]%float [1; 2]%float = Ok 0%float.
Proof.
  split.
  - apply norm_of_zeros. repeat constructor.
  - apply (cosine_similarity_zero_norm [0; 0]%float [1; 2]%float).
    + reflexivity.
    + left. vm_compute. reflexivity.
Defined.

(** The claim as written fails: the first vector has norm zero, the second
    has another length, and [np.dot] raises before the norms are looked
    at. *)
Lemma cosine_similarity_unequal_lengths :
  (np_linalg_norm [0%float] =? 0)%float = true
  /\ cosine_similarity [0%float] [1; 2]%float
     = Raise (ValueError
         (str "shapes (1,) and (2,) not aligned: 1 (dim 0) != 2 (dim 0)")).
Proof.
  split; vm_compute; reflexivity.
Qed.

(** *** The stable descending sort *)

Section SortOrder.

Variable A : Type.
Variable key : A -> float.

Local Abbreviation key_desc :=
  (fun a b : A => (key b <=? key a)%float = true).
Local Abbreviation numbers :=
  (Forall (fun a : A => is_nan (key a) = false)).

Lemma insert_desc_sorted x l :
  is_nan (key x) = false -> numbers l ->
  StronglySorted key_desc l -> StronglySorted key_desc (insert_desc key x l).
Proof.
  intros Hx Hl Hs. induction l as [|y l IH]; simpl.
  - constructor; constructor.
  - apply StronglySorted_inv in Hs. destruct Hs as [Hs Hy].
    inversion Hl as [|? ? Hny Hnl]; subst.
    destruct (key x <? key y)%float eqn:E.
    + constructor; [now apply IH|].
      apply (Permutation_Forall (insert_desc_perm _ key x l)).
      constructor; [now apply float_ltb_leb | assumption].
    + assert (Hyx : (key y <=? key x)%float = true)
        by now apply float_ltb_false_leb.
      constructor; [now constructor|].
      constructor; [assumption|].
      eapply Forall_impl; [|exact Hy].
      intros z Hz. simpl in Hz. eapply float_leb_trans; eassumption.
Qed.

Lemma sort_desc_sorted l :
  numbers l -> StronglySorted key_desc (sort_desc key l).
Proof.
  induction 1 as [|x l Hx Hl IH]; simpl.
  - constructor.
  - apply insert_desc_sorted; [assumption| |assumption].
    now apply (Permutation_Forall (sort_desc_perm _ key l)).
Qed.

(** An element only moves behind elements of a strictly greater key, so
    the elements of one key keep their order. *)
Lemma insert_desc_filter s x l :
  filter (fun a => (key a =? s)%float) (insert_desc key x l)
  = filter (fun a => (key a =? s)%float) (x :: l).
Proof.
  induction l as [|y l IH]; simpl; [reflexivity|].
  destruct (key x <? key y)%float eqn:E; [|reflexivity].
  simpl. rewrite IH. simpl.
  destruct (key x =? s)%float eqn:Ex, (key y =? s)%float eqn:Ey;
    try reflexivity.
  exfalso. eapply float_ltb_eqb_absurd; eassumption.
Qed.

Lemma sort_desc_filter s l :
  filter (fun a => (key a =? s)%float) (sort_desc key l)
  = filter (fun a => (key a =? s)%float) l.
Proof.
  induction l as [|x l IH]; simpl; [reflexivity|].
  rewrite insert_desc_filter. simpl. now rewrite IH.
Qed.

Lemma firstn_sorted (R : A -> A -> Prop) n : forall l,
  StronglySorted R l -> StronglySorted R (firstn n l).
Proof.
  induction n as [|n IH]; intros l Hs; simpl; [constructor|].
  destruct l as [|x l]; [constructor|].
  apply StronglySorted_inv in Hs. destruct Hs as [Hs Hx].
  constructor; [now apply IH|].
  apply Forall_forall. intros y Hy. rewrite Forall_forall in Hx.
  apply Hx. rewrite <- (firstn_skipn n l). apply in_or_app. now left.
Qed.

End SortOrder.

(** *** [semantic_search] *)

Lemma slice_to_firstn (A : Type) k (l : list A) :
  (0 <= k)%Z -> slice_to k l = firstn (Z.to_nat k) l.
Proof.
  intros Hk. unfold slice_to.
  destruct (0 <=? k)%Z eqn:E; [reflexivity|].
  apply Z.leb_gt in E. lia.
Qed.

Lemma score_all_total q chunks :
  same_dimension q chunks -> exists results, score_all q chunks = Ok results.
Proof.
  induction 1 as [|c chunks (v & Hv & Hlen) _ (results & IH)]; simpl.
  - eauto.
  - unfold chunk_similarity. rewrite Hv.
    destruct (cosine_similarity_total q v (eq_sym Hlen)) as [s ->].
    simpl. rewrite IH. simpl. eauto.
Qed.

Lemma score_all_scores q chunks : forall results,
  score_all q chunks = Ok results ->
  Forall (fun r => In (scored_chunk r) chunks
                   /\ chunk_similarity q (scored_chunk r) = Ok (similarity r))
         results.
Proof.
  induction chunks as [|c rest IH]; simpl; intros results H.
  - injection H as <-. constructor.
  - destruct (chunk_similarity q c) as [sim|e] eqn:Ec; simpl in H;
      [|discriminate].
    destruct (score_all q rest) as [rs|e]; simpl in H; [|discriminate].
    injection H as <-. constructor.
    + simpl. split; [now left | assumption].
    + eapply Forall_impl; [|apply IH; reflexivity].
      intros r [Hin Hs]. split; [now right | assumption].
Qed.

(** C6 (amended). For a query that the provider embeds as [q], candidates
    that all hold an embedding of the dimension of [q], none of which scores
    NaN, and [top_k >= 0]: [semantic_search] returns a list of at most
    [top_k] entries (all the candidates when there are no more than [top_k]),
    in descending order of similarity, in which entries of equal score keep
    the order they have in the input. *)
Theorem semantic_search_ranking :
  forall env query chunks top_k st q st',
    (0 <= top_k)%Z ->
    generate_embedding env query st = (Ok q, st') ->
    same_dimension q chunks ->
    comparable_scores q chunks ->
    exists results out,
      score_all q chunks = Ok results
      /\ map scored_chunk results = chunks
      /\ semantic_search env query chunks top_k st = (Ok out, st')
      /\ (Z.of_nat (length out) <= top_k)%Z
      /\ length out = Nat.min (Z.to_nat top_k) (length chunks)
      /\ ((Z.of_nat (length chunks) <= top_k)%Z -> Permutation results out)
      /\ incl out results
      /\ descending out
      /\ ties_in_input_order results out.
Proof.
  intros env query chunks top_k st q st' Hk Hq Hdim Hnum.
  destruct (score_all_total q chunks Hdim) as [results Hres].
  pose proof (score_all_chunks _ _ _ Hres) as Hmap.
  assert (Hlen : length results = length chunks)
    by (rewrite <- Hmap; now rewrite length_map).
  assert (Hnan : Forall (fun r => is_nan (similarity r) = false) results).
  { eapply Forall_impl; [|exact (score_all_scores _ _ _ Hres)].
    intros r [Hin Hs]. eapply Hnum; eassumption. }
  set (sorted := sort_desc similarity results).
  exists results, (firstn (Z.to_nat top_k) sorted).
  split; [assumption|]. split; [assumption|].
  split.
  { unfold semantic_search, rank. rewrite Hq, Hres. simpl.
    now rewrite slice_to_firstn. }
  assert (Hl : length (firstn (Z.to_nat top_k) sorted)
               = Nat.min (Z.to_nat top_k) (length chunks)).
  { rewrite length_firstn. unfold sorted.
    now rewrite sort_desc_length, Hlen. }
  split; [rewrite Hl; lia|]. split; [assumption|].
  split.
  { intros Hfit. rewrite firstn_all2.
    - apply sort_desc_perm.
    - unfold sorted. rewrite sort_desc_length, Hlen. lia. }
  split.
  { intros r Hr.
    apply (Permutation_in _
             (Permutation_sym (sort_desc_perm _ similarity results))).
    fold sorted. rewrite <- (firstn_skipn (Z.to_nat top_k) sorted).
    apply in_or_app. now left. }
  split.
  { apply firstn_sorted. now apply sort_desc_sorted. }
  intros s. exists (filter (same_score s) (skipn (Z.to_nat top_k) sorted)).
  rewrite <- filter_app, firstn_skipn.
  symmetry. apply (sort_desc_filter _ similarity s results).
Qed.

(** The end-to-end example: the query [[1; 0]] against [[1; 0]], [[0; 1]]
    and [[0.9; 0.1]] with [top_k = 2] returns the first chunk, then the
    third. *)
Lemma semantic_search_ranking_witness :
  exists out,
    semantic_search (env_query [1; 0]%float) (str "consulta")
                    [chunk1; chunk2; chunk3] 2 (initial_state [])
    = (Ok out, bump (initial_state []))
    /\ map scored_chunk out = [chunk1; chunk3]
    /\ length out = 2
    /\ descending out.
Proof.
  destruct (semantic_search_ranking
              (env_query [1; 0]%float) (str "consulta")
              [chunk1; chunk2; chunk3] 2 (initial_state [])
              [1; 0]%float (bump (initial_state [])))
    as (results & out & _ & _ & Hout & _ & Hlen & _ & _ & Hdesc & _).
  - lia.
  - reflexivity.
  - repeat constructor; eexists; split; reflexivity.
  - intros c s [<-|[<-|[<-|[]]]] H; vm_compute in H; injection H as <-;
      reflexivity.
  - exists out. split; [exact Hout|]. split; [|split; assumption].
    vm_compute in Hout. injection Hout as <-. reflexivity.
Defined.

(** The claim as written fails.  Against the query [[1; 1]] the chunk
    [[1e308; 1e308]] scores NaN (its dot product and its norm overflow), and
    the sort leaves the three candidates in the order of the input: the
    first entry has a strictly smaller score than the third.  And a candidate
    of another dimension makes the search raise, so that no candidate is
    returned although there are fewer than [top_k]. *)
Lemma nan_score_breaks_descending_order :
  (exists a b c st',
      semantic_search (env_query [1; 1]%float) (str "consulta")
                      [chunk1; chunk_huge; chunk_ones] 10 (initial_state [])
      = (Ok [a; b; c], st')
      /\ scored_chunk a = chunk1 /\ scored_chunk b = chunk_huge
      /\ scored_chunk c = chunk_ones
      /\ is_nan (similarity b) = true
      /\ (similarity a <? similarity c)%float = true
      /\ (similarity c <=? similarity a)%float = false)
  /\ (exists e st',
         semantic_search (env_query [1; 0; 0]%float) (str "consulta")
                         [chunk1] 10 (initial_state [])
         = (Raise e, st')).
Proof.
  split.
  - do 4 eexists. split; [vm_compute; reflexivity|].
    repeat split.
  - do 2 eexists. vm_compute. reflexivity.
Qed.

(** ** Chunks without embedding *)

Lemma chunks_with_embeddings_idem all :
  chunks_with_embeddings (chunks_with_embeddings all)
  = chunks_with_embeddings all.
Proof.
  unfold chunks_with_embeddings.
  induction all as [|c rest IH]; simpl; [reflexivity|].
  destruct (embedding c) eqn:E; simpl; [|exact IH].
  now rewrite E, IH.
Qed.

Lemma search_corpus_filters env termino all st :
  env_truthy termino = true ->
  search_corpus env termino all st
  = search_corpus env termino (chunks_with_embeddings all) st.
Proof.
  intros Ht. unfold search_corpus.
  now rewrite Ht, chunks_with_embeddings_idem.
Qed.

Lemma search_corpus_no_candidate env termino all st :
  env_truthy termino = true -> chunks_with_embeddings all = [] ->
  exists resp,
    search_corpus env termino all st = (Ok resp, st)
    /\ s_success resp = false /\ s_chunks resp = [].
Proof.
  intros Ht Hc. unfold search_corpus. rewrite Ht, Hc.
  eexists. split; [reflexivity|]. now split.
Qed.

Lemma search_corpus_ranks_embedded env t all st q st1 out :
  truthy t = true -> chunks_with_embeddings all <> [] ->
  generate_embedding env t st = (Ok q, st1) ->
  rank q (chunks_with_embeddings all) MAX_CHUNKS_IN_RESPONSE = Ok out ->
  exists resp,
    search_corpus env (Some t) all st = (Ok resp, st1)
    /\ s_chunks resp
       = map (fun r => (scored_chunk r, Some (similarity r))) out.
Proof.
  intros Ht Hc Hg Hr. unfold search_corpus. simpl env_truthy. rewrite Ht.
  destruct (chunks_with_embeddings all) as [|c0 cands]; [congruence|].
  unfold semantic_search. rewrite Hg, Hr.
  destruct out as [|r0 out']; eexists; split; reflexivity.
Qed.

(** C1 (amended). [update_cache] keeps the whole list, null embeddings
    included, in the volatile cache, but [save_chunks_to_db] skips every
    chunk whose embedding is [None]: the rows it hands to the table are those
    of the chunks that have an embedding.  The table is left as it was when
    no database is configured or the transaction does not commit, and
    otherwise holds the rows of the other folders followed by these.  A
    search with a term looks only at the chunks that have an embedding: its
    outcome is the one it has on the list without the others, it answers
    without any request when no chunk has an embedding, it returns the
    ranking of the chunks that have one, and every chunk it returns has
    one. *)
Theorem null_embeddings_cached_not_persisted :
  forall env st scope chunks,
    let st' := update_cache env scope chunks st in
    let added := rows_to_add (now_insert env) scope chunks in
    files_data (CACHE st') = Some chunks
    /\ added = map (row_of_chunk (now_insert env) scope)
                   (chunks_with_embeddings chunks)
    /\ Forall (fun r => row_embedding r <> None) added
    /\ (DB st' = DB st \/ DB st' = rows_of_others scope (DB st) ++ added)
    /\ (SessionLocal env = false -> DB st' = DB st)
    /\ (transaction_commits env chunks scope (DB st) = false ->
        DB st' = DB st)
    /\ (SessionLocal env = true ->
        transaction_commits env chunks scope (DB st) = true ->
        DB st' = rows_of_others scope (DB st) ++ added)
    /\ (forall termino all st0,
           env_truthy termino = true ->
           search_corpus env termino all st0
           = search_corpus env termino (chunks_with_embeddings all) st0)
    /\ (forall termino all st0,
           env_truthy termino = true -> chunks_with_embeddings all = [] ->
           exists resp,
             search_corpus env termino all st0 = (Ok resp, st0)
             /\ s_success resp = false /\ s_chunks resp = [])
    /\ (forall t all st0 q st1 out,
           truthy t = true -> chunks_with_embeddings all <> [] ->
           generate_embedding env t st0 = (Ok q, st1) ->
           rank q (chunks_with_embeddings all) MAX_CHUNKS_IN_RESPONSE
           = Ok out ->
           exists resp,
             search_corpus env (Some t) all st0 = (Ok resp, st1)
             /\ s_chunks resp
                = map (fun r => (scored_chunk r, Some (similarity r))) out)
    /\ (forall termino all st0 resp st1,
           env_truthy termino = true ->
           search_corpus env termino all st0 = (Ok resp, st1) ->
           Forall (fun p => embedding (fst p) <> None /\ In (fst p) all)
                  (s_chunks resp)).
Proof.
  intros env st scope chunks st' added. subst st' added.
  split; [reflexivity|].
  split; [apply rows_to_add_filter|].
  split.
  { rewrite rows_to_add_filter. apply Forall_forall. intros r Hr.
    apply in_map_iff in Hr. destruct Hr as (c & <- & Hc).
    apply filter_In in Hc. simpl. destruct (embedding c); intuition congruence. }
  split; [apply save_chunks_to_db_cases|].
  split.
  { intros Hs. simpl. unfold save_chunks_to_db. now rewrite Hs. }
  split; [apply save_chunks_to_db_rollback|].
  split; [apply save_chunks_to_db_commit|].
  split; [intros termino all st0; apply search_corpus_filters|].
  split; [intros termino all st0; apply search_corpus_no_candidate|].
  split; [intros t all st0 q st1 out; apply search_corpus_ranks_embedded|].
  intros termino all st0 resp st1. apply search_corpus_only_embedded.
Qed.

(** The claim as written fails: a chunk without embedding handed to
    [update_cache], with a database configured and empty, leaves the table
    empty. *)
Lemma null_embedding_chunk_not_written :
  exists c,
    In c [null_chunk] /\ embedding c = None
    /\ SessionLocal env_no_files = true
    /\ DB (update_cache env_no_files sample_folder [null_chunk]
                        (initial_state [])) = []
    /\ files_data (CACHE (update_cache env_no_files sample_folder [null_chunk]
                                       (initial_state []))) = Some [null_chunk].
Proof.
  exists null_chunk. repeat split. now left.
Qed.

(* ================================================================== *)
(** * Part III. Further properties of the code                         *)
(* ================================================================== *)

Import More.

(** ** Durable storage *)

Lemma primary_key_ok_NoDup rows :
  primary_key_ok rows = true <-> NoDup (map row_chunk_id rows).
Proof.
  induction rows as [|r rest IH]; simpl.
  - split; [constructor | reflexivity].
  - rewrite andb_true_iff, negb_true_iff, IH. split.
    + intros [Hex Hnd]. constructor; [|assumption].
      intros Hin. apply in_map_iff in Hin. destruct Hin as (r' & Heq & Hr').
      assert (existsb (fun r' => pystr_eqb (row_chunk_id r') (row_chunk_id r))
                      rest = true); [|congruence].
      apply existsb_exists. exists r'. split; [assumption|].
      now apply pystr_eqb_eq.
    + intros Hnd. inversion Hnd as [|? ? Hnotin Hnd']; subst.
      split; [|assumption].
      destruct (existsb _ rest) eqn:E; [|reflexivity].
      apply existsb_exists in E. destruct E as (r' & Hr' & Heq).
      apply pystr_eqb_eq in Heq. exfalso. apply Hnotin.
      rewrite <- Heq. now apply in_map.
Qed.

Lemma rows_to_add_folder created fid chunks :
  Forall (fun r => row_folder_id r = fid) (rows_to_add created fid chunks).
Proof.
  induction chunks as [|c rest IH]; simpl; [constructor|].
  destruct (embedding c); [constructor|]; auto.
Qed.

Lemma rows_of_folder_others fid db : rows_of_folder fid (rows_of_others fid db) = [].
Proof.
  unfold rows_of_folder, rows_of_others.
  induction db as [|r db IH]; simpl; [reflexivity|].
  destruct (pystr_eqb (row_folder_id r) fid) eqn:E; simpl; [assumption|].
  now rewrite E.
Qed.

Lemma rows_of_folder_all fid rows :
  Forall (fun r => row_folder_id r = fid) rows -> rows_of_folder fid rows = rows.
Proof.
  unfold rows_of_folder. induction 1 as [|r rows Hr _ IH]; simpl; [reflexivity|].
  rewrite Hr, pystr_eqb_refl. now rewrite IH.
Qed.

Lemma rows_of_folder_none fid other rows :
  other <> fid -> Forall (fun r => row_folder_id r = fid) rows ->
  rows_of_folder other rows = [].
Proof.
  unfold rows_of_folder. intros Hneq.
  induction 1 as [|r rows Hr _ IH]; simpl; [reflexivity|].
  rewrite Hr. destruct (pystr_eqb fid other) eqn:E; [|assumption].
  apply pystr_eqb_eq in E. congruence.
Qed.

Lemma rows_of_folder_kept fid other db :
  other <> fid ->
  rows_of_folder other (rows_of_others fid db) = rows_of_folder other db.
Proof.
  unfold rows_of_folder, rows_of_others. intros Hneq.
  induction db as [|r db IH]; simpl; [reflexivity|].
  destruct (pystr_eqb (row_folder_id r) fid) eqn:E; simpl.
  - apply pystr_eqb_eq in E.
    destruct (pystr_eqb (row_folder_id r) other) eqn:E'; [|assumption].
    apply pystr_eqb_eq in E'. congruence.
  - destruct (pystr_eqb (row_folder_id r) other); now rewrite IH.
Qed.

Lemma load_chunks_of_rows env fid created chunks db :
  SessionLocal env = true -> text_storable fid = true ->
  db_query_ok env = true ->
  load_chunks_from_db env fid
    (rows_of_others fid db ++ rows_to_add created fid chunks)
  = map read_back (chunks_with_embeddings chunks).
Proof.
  intros Hs Hf Hq. unfold load_chunks_from_db. rewrite Hs, Hf, Hq. simpl.
  fold (rows_of_folder fid
          (rows_of_others fid db ++ rows_to_add created fid chunks)).
  unfold rows_of_folder at 1. rewrite filter_app.
  fold (rows_of_folder fid (rows_of_others fid db)).
  fold (rows_of_folder fid (rows_to_add created fid chunks)).
  rewrite rows_of_folder_others,
    (rows_of_folder_all _ _ (rows_to_add_folder created fid chunks)).
  simpl. rewrite rows_to_add_filter, map_map.
  apply map_ext. intros c. reflexivity.
Qed.

(** X1. Round trip through the table, with a database configured.  When the
    transaction commits and the query goes through, reading the folder back
    after [save_chunks_to_db] returns the chunks that have an embedding,
    each once, with every field as it was given and the embedding as the
    [JSONB] column gives it back (a negative zero as zero, every other number
    unchanged), and nothing else; the order of the rows is the database's,
    and the statement does not depend on it.  When the transaction does not
    commit, the folder reads as before the call; when the query fails, it
    reads as empty. *)
Theorem save_then_load_round_trip :
  forall env chunks fid db,
    SessionLocal env = true ->
    (transaction_commits env chunks fid db = true ->
     db_query_ok env = true ->
     plain_numbers chunks = true ->
     Permutation
       (load_chunks_from_db env fid (save_chunks_to_db env chunks fid db))
       (map read_back (chunks_with_embeddings chunks)))
    /\ (transaction_commits env chunks fid db = false ->
        load_chunks_from_db env fid (save_chunks_to_db env chunks fid db)
        = load_chunks_from_db env fid db)
    /\ (db_query_ok env = false ->
        load_chunks_from_db env fid (save_chunks_to_db env chunks fid db)
        = []).
Proof.
  intros env chunks fid db Hs. split; [|split].
  - intros Hk Hq _.
    rewrite (save_chunks_to_db_commit env chunks fid db Hs Hk).
    rewrite load_chunks_of_rows; try assumption; [reflexivity|].
    exact (transaction_commits_folder env chunks fid db Hk).
  - intros Hk. now rewrite save_chunks_to_db_rollback.
  - intros Hq. unfold load_chunks_from_db. rewrite Hs, Hq.
    now rewrite orb_true_r.
Qed.

(** A chunk without embedding is not read back, and a negative zero is read
    back as zero. *)
Lemma save_then_load_round_trip_witness :
  Permutation
    (load_chunks_from_db env_no_files sample_folder
       (save_chunks_to_db env_no_files
          [sample_chunk; null_chunk; signed_zero_chunk] sample_folder []))
    [sample_chunk;
     mkChunk (str "f1_1") (str "Articulo 3") (Some [0%float; 1%float])
             (str "norma.pdf") (str "https://drive/f1") 1 2].
Proof.
  apply (save_then_load_round_trip env_no_files
           [sample_chunk; null_chunk; signed_zero_chunk] sample_folder []);
    reflexivity.
Defined.

(** X2. [save_chunks_to_db] for one folder never touches the rows of another
    folder: whether it commits, rolls back or has no database, what
    [load_chunks_from_db] returns for any other folder is unchanged. *)
Theorem save_keeps_other_folders :
  forall env chunks fid db other,
    other <> fid ->
    rows_of_folder other (save_chunks_to_db env chunks fid db)
    = rows_of_folder other db
    /\ load_chunks_from_db env other (save_chunks_to_db env chunks fid db)
       = load_chunks_from_db env other db.
Proof.
  intros env chunks fid db other Hneq.
  assert (H : rows_of_folder other (save_chunks_to_db env chunks fid db)
              = rows_of_folder other db).
  { destruct (save_chunks_to_db_cases env chunks fid db) as [-> | ->];
      [reflexivity|].
    unfold rows_of_folder at 1. rewrite filter_app.
    fold (rows_of_folder other (rows_of_others fid db)).
    fold (rows_of_folder other (rows_to_add (now_insert env) fid chunks)).
    rewrite (rows_of_folder_none fid other _ Hneq
               (rows_to_add_folder _ fid chunks)).
    rewrite app_nil_r. now apply rows_of_folder_kept. }
  split; [exact H|].
  unfold load_chunks_from_db. destruct (negb (SessionLocal env)); [reflexivity|].
  destruct (negb (text_storable other) || negb (db_query_ok env));
    [reflexivity|].
  unfold rows_of_folder in H. now rewrite H.
Qed.

Lemma save_keeps_other_folders_witness :
  let db := [row_of_chunk 10 other_folder sample_chunk] in
  rows_of_folder other_folder
    (save_chunks_to_db env_no_files [null_chunk] sample_folder db)
  = db.
Proof.
  intros db.
  destruct (save_keeps_other_folders env_no_files [null_chunk] sample_folder
              db other_folder) as [H _].
  - vm_compute. discriminate.
  - rewrite H. vm_compute. reflexivity.
Defined.

(** X3. The write is all or nothing.  If two of the chunks that have an
    embedding carry the same [chunk_id], the commit fails and the table is
    left exactly as it was (the delete of the old rows is rolled back too),
    while [update_cache] has already put the new list in the volatile
    cache. *)
Theorem duplicate_key_rolls_back :
  forall env fid st l1 c1 l2 c2 l3,
    chunk_id c1 = chunk_id c2 ->
    embedding c1 <> None -> embedding c2 <> None ->
    let chunks := l1 ++ c1 :: l2 ++ c2 :: l3 in
    DB (update_cache env fid chunks st) = DB st
    /\ files_data (CACHE (update_cache env fid chunks st)) = Some chunks.
Proof.
  intros env fid st l1 c1 l2 c2 l3 Hid H1 H2 chunks.
  split; [|reflexivity]. simpl. unfold save_chunks_to_db.
  destruct (negb (SessionLocal env)); [reflexivity|].
  destruct (transaction_commits env chunks fid (DB st)) eqn:E; [|reflexivity].
  exfalso. apply transaction_commits_key in E. unfold rows_of_others in E.
  apply primary_key_ok_NoDup in E.
  rewrite map_app in E. apply NoDup_app_remove_l in E.
  rewrite rows_to_add_filter, map_map in E. unfold chunks in E.
  unfold chunks_with_embeddings in E.
  rewrite filter_app in E. simpl in E.
  destruct (embedding c1) eqn:E1; [|congruence].
  rewrite filter_app in E. simpl in E.
  destruct (embedding c2) eqn:E2; [|congruence].
  rewrite map_app in E. apply NoDup_app_remove_l in E.
  simpl in E. inversion E as [|? ? Hnotin _]; subst. apply Hnotin.
  rewrite map_app. apply in_or_app. right. simpl. left. now symmetry.
Qed.

Lemma duplicate_key_rolls_back_witness :
  let db := [row_of_chunk 10 sample_folder chunk1] in
  DB (update_cache env_no_files sample_folder [sample_chunk; clashing_chunk]
                   (mkState empty_cache db 0)) = db.
Proof.
  intros db.
  apply (duplicate_key_rolls_back env_no_files sample_folder
           (mkState empty_cache db 0) [] sample_chunk [] clashing_chunk []).
  - reflexivity.
  - discriminate.
  - discriminate.
Defined.

(** ** Validity of the volatile cache *)

Lemma is_cache_valid_written now ts fid files n :
  is_cache_valid now (mkCache (Some ts) (Some fid) (Some files) n) fid = true
  <-> files <> [] /\ (now < ts + timedelta_hours CACHE_TTL_HOURS)%Z.
Proof.
  unfold is_cache_valid. simpl. rewrite pystr_eqb_refl. simpl.
  destruct files as [|c l]; simpl.
  - split; [discriminate | intros [H _]; congruence].
  - rewrite Z.ltb_lt. split; [intros H; split; [discriminate|assumption] | tauto].
Qed.

(** X4. After [update_cache(scope, files)] the scope is valid at a time
    [now] exactly when the list is not empty and [now] is before the write
    time plus the TTL; and a cache that is valid at some time is valid at
    every earlier time (validity only ends, it never starts later). *)
Theorem update_cache_validity_window :
  (forall env fid files st now,
      is_cache_valid now (CACHE (update_cache env fid files st)) fid = true
      <-> files <> [] /\ (now < expiry env)%Z)
  /\ (forall now now' cache fid,
         is_cache_valid now cache fid = true -> (now' <= now)%Z ->
         is_cache_valid now' cache fid = true).
Proof.
  split.
  - intros env fid files st now. apply is_cache_valid_written.
  - intros now now' cache fid H Hle. unfold is_cache_valid in *.
    destruct (negb (cache_truthy cache) || _); [discriminate|].
    destruct (timestamp cache) as [ts|]; [|discriminate].
    destruct (_ || _); [discriminate|].
    apply Z.ltb_lt in H. apply Z.ltb_lt. lia.
Qed.

(** ** Start-up load *)

(** X5. [startup_event] never writes the table.  After a restart that
    follows an [update_cache] whose transaction committed, with the database
    and the folder configured and the query of the load going through, the
    cache holds the chunks that had an embedding, as the table gives them
    back, and only them (those without are gone from the cache), and the
    folder is valid until the TTL of the load runs out; when no chunk had an
    embedding the cache stays empty.  When the query of the load fails the
    cache stays empty whatever the table holds. *)
Theorem restart_reloads_embedded_chunks :
  (forall env st, DB (startup_event env st) = DB st)
  /\ (forall env fid chunks st,
         FOLDER_ID env = Some fid -> truthy fid = true ->
         env_truthy (DATABASE_URL env) = true -> SessionLocal env = true ->
         transaction_commits env chunks fid (DB st) = true ->
         db_query_ok env = true ->
         plain_numbers chunks = true ->
         let st' := startup_event env
                      (restart (update_cache env fid chunks st)) in
         (chunks_with_embeddings chunks = [] -> CACHE st' = empty_cache)
         /\ (chunks_with_embeddings chunks <> [] ->
             (exists loaded,
                 files_data (CACHE st') = Some loaded
                 /\ Permutation loaded
                      (map read_back (chunks_with_embeddings chunks)))
             /\ forall now,
                  (now < expiry env)%Z ->
                  is_cache_valid now (CACHE st') fid = true))
  /\ (forall env st,
         db_query_ok env = false ->
         CACHE (startup_event env (restart st)) = empty_cache).
Proof.
  split; [|split].
  - intros env st. unfold startup_event.
    destruct (_ || _); [reflexivity|].
    destruct (FOLDER_ID env) as [fid|]; [|reflexivity].
    destruct (negb (truthy fid)); [reflexivity|].
    now destruct (load_chunks_from_db env fid (DB st)).
  - intros env fid chunks st Hf Ht Hd Hs Hk Hq _ st'. subst st'.
    unfold startup_event, restart. rewrite Hd, Hs, Hf, Ht. simpl.
    rewrite (save_chunks_to_db_commit env chunks fid (DB st) Hs Hk).
    rewrite (load_chunks_of_rows env fid _ chunks (DB st) Hs
               (transaction_commits_folder env chunks fid (DB st) Hk) Hq).
    destruct (chunks_with_embeddings chunks) as [|c l] eqn:E.
    + split; [reflexivity | congruence].
    + split; [discriminate|]. intros _. simpl. split.
      * eexists. split; reflexivity.
      * intros now Hnow. apply is_cache_valid_written.
        split; [discriminate | exact Hnow].
  - intros env st Hq. unfold startup_event, restart.
    destruct (_ || _); [reflexivity|].
    destruct (FOLDER_ID env) as [fid|]; [|reflexivity].
    destruct (negb (truthy fid)); [reflexivity|].
    unfold load_chunks_from_db. rewrite Hq, orb_true_r.
    now destruct (negb (SessionLocal env)).
Qed.

Lemma restart_reloads_embedded_chunks_witness :
  exists loaded,
    files_data
      (CACHE (startup_event env_no_files
                (restart (update_cache env_no_files sample_folder
                            [null_chunk; sample_chunk] (initial_state [])))))
    = Some loaded
    /\ Permutation loaded [sample_chunk].
Proof.
  pose proof (proj1 (proj2 restart_reloads_embedded_chunks) env_no_files
                sample_folder [null_chunk; sample_chunk] (initial_state [])
                eq_refl eq_refl eq_refl eq_refl eq_refl eq_refl eq_refl)
    as H.
  cbv zeta in H. destruct H as [_ H].
  destruct (H ltac:(discriminate)) as [H' _]. exact H'.
Defined.

(** ** Endpoints *)

Lemma generate_embedding_raises env t st e st' :
  generate_embedding env t st = (Raise e, st') -> is_http_500 e.
Proof.
  unfold generate_embedding. destruct (negb (openai_client env)).
  - intros H. injection H as <- _. eexists. reflexivity.
  - destruct (embeddings_create env _ _); intros H; [discriminate|].
    injection H as <- _. eexists. reflexivity.
Qed.

Lemma generate_embedding_frame env t st r st' :
  generate_embedding env t st = (r, st') ->
  CACHE st' = CACHE st /\ DB st' = DB st.
Proof.
  unfold generate_embedding. destruct (negb (openai_client env)).
  - intros H. injection H as _ <-. now split.
  - destruct (embeddings_create env _ _); intros H; injection H as _ <-;
      now split.
Qed.

Lemma warmup_cache_raises env st e st' :
  warmup_cache env st = (Raise e, st') -> is_http_500 e /\ st' = st.
Proof.
  unfold warmup_cache, folder_not_configured, get_drive_service,
    list_files_in_folder.
  destruct (FOLDER_ID env) as [fid|];
    [|intros H; injection H as <- <-; split; [eexists|]; reflexivity].
  destruct (negb (truthy fid));
    [intros H; injection H as <- <-; split; [eexists|]; reflexivity|].
  destruct (negb (openai_client env));
    [intros H; injection H as <- <-; split; [eexists|]; reflexivity|].
  destruct (is_cache_valid _ _ _); [discriminate|].
  destruct (drive_build env);
    [|intros H; injection H as <- <-; split; [eexists|]; reflexivity].
  destruct (drive_list env fid) as [[|f0 files]|e0];
    [discriminate| |intros H; injection H as <- <-; split; [eexists|];
                     reflexivity].
  destruct (process_files env (f0 :: files) st). discriminate.
Qed.

Lemma cosine_similarity_raises u v e :
  cosine_similarity u v = Raise e -> exists msg, e = ValueError msg.
Proof.
  unfold cosine_similarity, np_dot.
  destruct (length u =? length v)%nat; simpl.
  - destruct (_ || _); discriminate.
  - intros H. injection H as <-. eexists. reflexivity.
Qed.

Lemma score_all_raises q chunks e :
  score_all q chunks = Raise e ->
  exists msg, e = ValueError msg \/ e = TypeError msg.
Proof.
  induction chunks as [|c rest IH]; simpl; [discriminate|].
  unfold chunk_similarity at 1.
  destruct (embedding c) as [v|].
  - destruct (cosine_similarity q v) as [s|e0] eqn:E; simpl.
    + destruct (score_all q rest) as [rs|e1]; simpl; [discriminate|].
      intros H. injection H as <-. now apply IH.
    + intros H. injection H as <-.
      destruct (cosine_similarity_raises _ _ _ E) as [msg ->]. eauto.
  - simpl. intros H. injection H as <-. eauto.
Qed.

Lemma search_corpus_raises env termino all st e st' :
  search_corpus env termino all st = (Raise e, st') -> is_http_500 e.
Proof.
  unfold search_corpus. destruct (env_truthy termino); [|discriminate].
  destruct (chunks_with_embeddings all) as [|c0 cands]; [discriminate|].
  unfold semantic_search.
  destruct (generate_embedding env _ st) as [[q|e0] st1] eqn:G.
  - unfold rank.
    destruct (score_all q (c0 :: cands)) as [results|e1] eqn:S; simpl.
    + destruct (slice_to _ _); discriminate.
    + destruct (score_all_raises _ _ _ S) as [msg [-> | ->]]; intros H;
        injection H as <- _; eexists; reflexivity.
  - destruct (generate_embedding_raises _ _ _ _ _ G) as [detail ->].
    intros H. injection H as <- _. eexists. reflexivity.
Qed.

Lemma corpus_for_search_raises env fid st e st' :
  corpus_for_search env fid st = (Raise e, st') -> is_http_500 e.
Proof.
  unfold corpus_for_search, get_drive_service, list_files_in_folder.
  destruct (is_cache_valid _ _ _); [discriminate|].
  destruct (drive_build env);
    [|intros H; injection H as <- _; eexists; reflexivity].
  destruct (drive_list env fid) as [[|f0 files]|e0];
    [discriminate| |intros H; injection H as <- _; eexists; reflexivity].
  destruct (process_files env (f0 :: files) st). discriminate.
Qed.

(** X6. Whatever goes wrong inside them (a missing setting, Drive, the
    embeddings API, numpy), the three endpoints let out only
    [HTTPException]s of status 500; and when [warmup_cache] raises it has
    changed nothing. *)
Theorem endpoints_raise_only_http_500 :
  (forall env st e st',
      warmup_cache env st = (Raise e, st') -> is_http_500 e /\ st' = st)
  /\ (forall env st e st',
         refresh_cache env st = (Raise e, st') -> is_http_500 e)
  /\ (forall env termino st e st',
         buscar_normativa env termino st = (Raise e, st') -> is_http_500 e).
Proof.
  split; [exact warmup_cache_raises|]. split.
  - intros env st e st'. unfold refresh_cache.
    destruct (warmup_cache env (invalidate_cache st)) as [[r|e0] st1];
      [discriminate|].
    intros H. injection H as <- _. eexists. reflexivity.
  - intros env termino st e st'. unfold buscar_normativa, folder_not_configured.
    destruct (FOLDER_ID env) as [fid|];
      [|intros H; injection H as <- _; eexists; reflexivity].
    destruct (negb (truthy fid));
      [intros H; injection H as <- _; eexists; reflexivity|].
    destruct (corpus_for_search env fid st) as [[[all|resp]|e0] st1] eqn:C.
    + apply search_corpus_raises.
    + discriminate.
    + intros H. injection H as <- _.
      eapply corpus_for_search_raises; eassumption.
Qed.

Lemma endpoints_raise_only_http_500_witness :
  exists detail,
    warmup_cache env_drive_down (initial_state [])
    = (Raise (HTTPException 500 detail), initial_state []).
Proof.
  destruct (warmup_cache env_drive_down (initial_state [])) as [[r|e] st']
    eqn:W; [vm_compute in W; discriminate|].
  destruct (proj1 endpoints_raise_only_http_500 _ _ _ _ W) as [[detail ->] ->].
  now exists detail.
Defined.

Lemma warmup_cache_invalidated env st :
  let out := warmup_cache env (invalidate_cache st) in
  (exists e, fst out = Raise e /\ snd out = invalidate_cache st)
  \/ (exists r, fst out = Ok r /\ snd out = invalidate_cache st
                /\ w_cache_status r = str "empty")
  \/ (exists r, fst out = Ok r
                /\ timestamp (CACHE (snd out)) = Some (now_update env)).
Proof.
  cbv zeta.
  unfold warmup_cache, get_drive_service, list_files_in_folder.
  destruct (FOLDER_ID env) as [fid|]; [|left; simpl; eauto].
  destruct (negb (truthy fid)); [left; simpl; eauto|].
  destruct (negb (openai_client env)); [left; simpl; eauto|].
  change (is_cache_valid (now_valid env) (CACHE (invalidate_cache st)) fid)
    with false. cbv iota.
  destruct (drive_build env); [|left; simpl; eauto].
  destruct (drive_list env fid) as [[|f0 files]|e0];
    [right; left; simpl; eauto| |left; simpl; eauto].
  destruct (process_files env (f0 :: files) (invalidate_cache st)).
  right. right. simpl. eauto.
Qed.

(** X7. [refresh_cache] gives up the snapshot it had before it knows whether
    a new one can be built: afterwards the cache is either empty or freshly
    written by this call.  When the refresh raises, or the folder lists no
    file, the cache is left empty, and the table and the count of API calls
    are as before. *)
Theorem refresh_cache_drops_old_snapshot :
  forall env st,
    let out := refresh_cache env st in
    (CACHE (snd out) = empty_cache
     \/ timestamp (CACHE (snd out)) = Some (now_update env))
    /\ (forall e, fst out = Raise e -> snd out = invalidate_cache st)
    /\ (forall fid,
           FOLDER_ID env = Some fid -> drive_list env fid = Ok [] ->
           snd out = invalidate_cache st).
Proof.
  intros env st out. subst out. unfold refresh_cache.
  pose proof (warmup_cache_invalidated env st) as H. cbv zeta in H.
  destruct (warmup_cache env (invalidate_cache st)) as [[r|e0] st1] eqn:W;
    simpl in *.
  - split; [|split].
    + destruct H as [(e & He & _) | [(r' & _ & -> & _) | (r' & _ & Ht)]];
        [discriminate | now left | now right].
    + discriminate.
    + intros fid Hf Hl. revert W.
      unfold warmup_cache, get_drive_service, list_files_in_folder.
      rewrite Hf, Hl. simpl.
      destruct (negb (truthy fid)); [discriminate|].
      destruct (negb (openai_client env)); [discriminate|].
      destruct (drive_build env); [|discriminate].
      intros W. now injection W as _ <-.
  - destruct H as [(e & He & ->) | [(r' & Hr & _) | (r' & Hr & _)]];
      try discriminate.
    split; [now left|]. split; reflexivity.
Qed.

(** X8. A warm-up that follows a run which assembled at least one chunk is
    a no-op as long as the TTL has not run out: it answers ["warm"] with the
    counts of that run, lists nothing, embeds nothing and leaves the state as
    it is. *)
Theorem second_warmup_is_a_no_op :
  forall env st fid files env2,
    run_starts env st fid files ->
    all_files_data (fst (process_files env files st)) <> [] ->
    FOLDER_ID env2 = Some fid -> openai_client env2 = true ->
    (now_valid env2 < expiry env)%Z ->
    let all := all_files_data (fst (process_files env files st)) in
    let st1 := snd (warmup_cache env st) in
    exists result,
      warmup_cache env2 st1 = (Ok result, st1)
      /\ w_success result = true
      /\ w_cache_status result = str "warm"
      /\ w_total_chunks result = Some (length all)
      /\ w_total_documents result = Some (unique_docs all).
Proof.
  intros env st fid files env2 Hrun Hall Hf2 Ho2 Hnow all st1.
  assert (Hne : files <> []).
  { intros ->. apply Hall. reflexivity. }
  pose proof (warmup_cache_run env st fid files Hrun Hne) as W.
  cbv zeta in W. subst st1. rewrite W. simpl snd.
  destruct Hrun as (_ & Ht & _).
  unfold warmup_cache at 1. rewrite Hf2, Ht, Ho2. simpl negb. cbv iota.
  assert (V : is_cache_valid (now_valid env2)
                (CACHE (update_cache env fid all
                          (snd (process_files env files st)))) fid = true).
  { apply is_cache_valid_written. split; assumption. }
  fold all. rewrite V. eexists. split; [reflexivity|]. repeat split.
Qed.

Lemma second_warmup_is_a_no_op_witness :
  let st1 := snd (warmup_cache env_one_file (initial_state [])) in
  exists result,
    warmup_cache env_one_file st1 = (Ok result, st1)
    /\ w_cache_status result = str "warm"
    /\ w_total_chunks result = Some 1.
Proof.
  intros st1.
  destruct (second_warmup_is_a_no_op env_one_file (initial_state [])
              sample_folder [txt_file] env_one_file)
    as (result & Hw & _ & Hs & Hc & _).
  - repeat split.
  - vm_compute. discriminate.
  - reflexivity.
  - reflexivity.
  - vm_compute. reflexivity.
  - exists result. split; [exact Hw|]. split; [exact Hs|].
    rewrite Hc. vm_compute. reflexivity.
Defined.

(** ** Whitespace and [strip] *)

Lemma blank_or_inked s : blank s \/ inked s.
Proof.
  induction s as [|c s [IH|(d & Hd & Hs)]].
  - left. constructor.
  - destruct (isspace c) eqn:E.
    + left. now constructor.
    + right. exists c. split; [now left | assumption].
  - right. exists d. split; [now right | assumption].
Qed.

Lemma blank_not_inked s : blank s -> inked s -> False.
Proof.
  intros Hb (c & Hc & Hs). unfold blank in Hb. rewrite Forall_forall in Hb.
  specialize (Hb c Hc). congruence.
Qed.

Lemma lstrip_blank s : blank s -> lstrip s = [].
Proof.
  induction 1 as [|c s Hc _ IH]; simpl; [reflexivity|]. now rewrite Hc.
Qed.

Lemma lstrip_head s :
  lstrip s = [] \/ exists x r, lstrip s = x :: r /\ isspace x = false.
Proof.
  induction s as [|c s IH]; simpl; [now left|].
  destruct (isspace c) eqn:E; [assumption|]. right. eauto.
Qed.

(** [lstrip] stops at the first character that is not whitespace, at the
    latest. *)
Lemma lstrip_keep a x r :
  isspace x = false -> exists a', lstrip (a ++ x :: r) = a' ++ x :: r.
Proof.
  intros Hx. induction a as [|c a (a' & IH)]; simpl.
  - rewrite Hx. now exists [].
  - destruct (isspace c); [eauto|]. now exists (c :: a).
Qed.

Lemma rstrip_keep q y b :
  isspace y = false -> exists b', rstrip (q ++ y :: b) = q ++ y :: b'.
Proof.
  intros Hy. unfold rstrip. rewrite rev_app_distr. simpl.
  rewrite <- app_assoc. simpl.
  destruct (lstrip_keep (rev b) y (rev q) Hy) as (b' & ->).
  exists (rev b'). rewrite rev_app_distr. simpl.
  now rewrite rev_involutive, <- app_assoc.
Qed.

Lemma rstrip_last s :
  rstrip s = [] \/ exists q y, rstrip s = q ++ [y] /\ isspace y = false.
Proof.
  unfold rstrip.
  destruct (lstrip_head (rev s)) as [-> | (x & r & -> & Hx)];
    [now left|].
  right. exists (rev r), x. now split.
Qed.

Lemma strip_blank s : blank s -> strip s = [].
Proof.
  intros H. unfold strip, rstrip. rewrite (lstrip_blank (rev s)).
  - reflexivity.
  - unfold blank in *. rewrite Forall_forall in *. intros c Hc.
    apply H. now apply in_rev.
Qed.

Lemma strip_inked s : inked s -> trimmed (strip s).
Proof.
  intros (c & Hc & Hs). apply in_split in Hc. destruct Hc as (a & b & ->).
  unfold strip.
  destruct (rstrip_keep a c b Hs) as (b' & Hr).
  destruct (rstrip_last (a ++ c :: b)) as [E | (q & y & E & Hy)].
  - rewrite Hr in E. now destruct a.
  - rewrite E. destruct (lstrip_keep q y [] Hy) as (q' & Hl).
    split.
    + destruct (lstrip_head (q ++ [y])) as [E' | H]; [|exact H].
      rewrite Hl in E'. now destruct q'.
    + exists q', y. now split.
Qed.

Lemma strip_nil_iff s : strip s = [] <-> blank s.
Proof.
  split; [|apply strip_blank].
  intros H. destruct (blank_or_inked s) as [Hb|Hi]; [assumption|].
  apply strip_inked in Hi. destruct Hi as [(x & r & E & _) _]. congruence.
Qed.

Lemma trimmed_inked p : trimmed p -> inked p.
Proof.
  intros [(x & r & -> & Hx) _]. exists x. split; [now left | assumption].
Qed.

Lemma infix_inked p s : inked p -> infix p s -> inked s.
Proof.
  intros (c & Hc & Hs) (a & b & ->). exists c. split; [|assumption].
  apply in_or_app. right. apply in_or_app. now left.
Qed.

(** Stripping a string keeps every trimmed part of it. *)
Lemma strip_infix p s : trimmed p -> infix p s -> infix p (strip s).
Proof.
  intros [(x & r & Ex & Hx) (q & y & Ey & Hy)] (a & b & ->).
  unfold strip.
  destruct (rstrip_keep (a ++ q) y b Hy) as (b' & Hr).
  assert (E : a ++ p ++ b = (a ++ q) ++ y :: b).
  { rewrite Ey, <- !app_assoc. reflexivity. }
  rewrite E, Hr.
  assert (E' : (a ++ q) ++ y :: b' = a ++ x :: (r ++ b')).
  { rewrite <- app_assoc.
    change (y :: b') with ([y] ++ b'). rewrite (app_assoc q), <- Ey, Ex.
    reflexivity. }
  rewrite E'. destruct (lstrip_keep a x (r ++ b') Hx) as (a' & ->).
  exists a', b'. now rewrite Ex.
Qed.

Lemma strip_trimmed p : trimmed p -> strip (p ++ [space]) = p.
Proof.
  intros [(x & r & Ex & Hx) (q & y & Ey & Hy)].
  unfold strip. rewrite rstrip_space.
  assert (Hr : rstrip p = p).
  { unfold rstrip. rewrite Ey, rev_app_distr. simpl. rewrite Hy.
    rewrite <- (rev_involutive q) at 2. reflexivity. }
  rewrite Hr, Ex. simpl. now rewrite Hx.
Qed.

(** ** Lines, paragraphs and the turns of the segmenter *)

Lemma split_lines_not_nil s : split_lines s <> [].
Proof.
  destruct s as [|c s]; simpl; [discriminate|].
  destruct (c =? 10)%N; [discriminate|].
  destruct (split_lines s); discriminate.
Qed.

(** The lines hold the characters of the text other than the newlines. *)
Lemma split_lines_chars s c :
  (exists line, In line (split_lines s) /\ In c line)
  <-> In c s /\ c <> newline.
Proof.
  induction s as [|d s IH]; simpl.
  - split.
    + intros (line & Hl & Hc). destruct Hl as [Hl | []]. subst line.
      destruct Hc.
    + intros [[] _].
  - destruct (d =? 10)%N eqn:E.
    + apply N.eqb_eq in E. subst d. split.
      * intros (line & Hl & Hc). destruct Hl as [Hl | Hl];
          [subst line; destruct Hc|].
        destruct (proj1 IH (ex_intro _ line (conj Hl Hc))). split; auto.
      * intros [[<- | Hc] Hn]; [now elim Hn|].
        destruct (proj2 IH (conj Hc Hn)) as (line & Hl & Hcl).
        exists line. split; [now right | assumption].
    + apply N.eqb_neq in E.
      destruct (split_lines s) as [|p ps] eqn:S;
        [now elim (split_lines_not_nil s)|].
      split.
      * intros (line & Hl & Hc). destruct Hl as [Hl | Hl]; [subst line|].
        -- destruct Hc as [<- | Hc]; [split; [now left | exact E]|].
           destruct (proj1 IH (ex_intro _ p (conj (or_introl eq_refl) Hc))).
           split; auto.
        -- destruct (proj1 IH (ex_intro _ line (conj (or_intror Hl) Hc))).
           split; auto.
      * intros [[<- | Hc] Hn].
        -- exists (d :: p). split; now left.
        -- destruct (proj2 IH (conj Hc Hn)) as (line & Hl & Hcl).
           destruct Hl as [Hl | Hl].
           ++ subst line. exists (d :: p). split; [now left | now right].
           ++ exists line. split; [now right | assumption].
Qed.

Lemma paragraphs_In text p :
  In p (paragraphs text)
  <-> exists line, In line (split_lines text) /\ inked line /\ p = strip line.
Proof.
  unfold paragraphs. rewrite in_map_iff. split.
  - intros (line & <- & Hl). apply filter_In in Hl. destruct Hl as [Hl Ht].
    exists line. repeat split; [assumption|].
    destruct (blank_or_inked line) as [Hb|Hi]; [|assumption].
    apply strip_blank in Hb. rewrite Hb in Ht. discriminate.
  - intros (line & Hl & Hi & ->). exists line. split; [reflexivity|].
    apply filter_In. split; [assumption|].
    apply strip_inked in Hi. destruct Hi as [(x & r & -> & _) _]. reflexivity.
Qed.

Lemma paragraphs_trimmed text : Forall trimmed (paragraphs text).
Proof.
  apply Forall_forall. intros p Hp. apply paragraphs_In in Hp.
  destruct Hp as (line & _ & Hi & ->). now apply strip_inked.
Qed.

Lemma paragraphs_nil_iff text : paragraphs text = [] <-> blank text.
Proof.
  split.
  - intros H. destruct (blank_or_inked text) as [Hb|(c & Hc & Hs)];
      [assumption|].
    assert (Hn : c <> newline) by (intros ->; discriminate).
    destruct (proj2 (split_lines_chars text c) (conj Hc Hn))
      as (line & Hl & Hcl).
    assert (Hp : In (strip line) (paragraphs text)).
    { apply paragraphs_In. exists line. repeat split; [assumption|].
      exists c. now split. }
    rewrite H in Hp. destruct Hp.
  - intros Hb. destruct (paragraphs text) as [|p ps] eqn:E; [reflexivity|].
    assert (Hp : In p (paragraphs text)) by (rewrite E; now left).
    apply paragraphs_In in Hp. destruct Hp as (line & Hl & (c & Hc & Hs) & _).
    destruct (proj1 (split_lines_chars text c)
                (ex_intro _ line (conj Hl Hc))) as [Hin _].
    exfalso. apply (blank_not_inked text Hb). exists c. now split.
Qed.

(** The guard at the head of [split_text_into_chunks] is the test that the
    text is blank. *)
Lemma segmenter_guard text :
  negb (truthy text) || (len (strip text) =? 0)%Z = true <-> blank text.
Proof.
  rewrite <- strip_nil_iff. unfold len. split.
  - intros H. apply orb_prop in H. destruct H as [H|H].
    + destruct text; [reflexivity | discriminate].
    + apply Z.eqb_eq in H. destruct (strip text); [reflexivity | discriminate].
  - intros ->. apply orb_true_r.
Qed.

(** The buffer after a turn, whatever it was before: something, the
    paragraph, a space. *)
Lemma step_buffer cs ov chunks cur p :
  exists seed, snd (step cs ov (chunks, cur) p) = seed ++ p ++ [space].
Proof.
  unfold step. destruct (_ && _); simpl; eauto.
Qed.

Lemma step_chunks cs ov chunks cur p :
  fst (step cs ov (chunks, cur) p) = chunks
  \/ (cur <> [] /\ fst (step cs ov (chunks, cur) p) = chunks ++ [strip cur]).
Proof.
  unfold step. destruct (_ && _) eqn:E; simpl; [|now left].
  right. split; [|reflexivity]. apply andb_prop in E.
  destruct E as [_ E]. now destruct cur.
Qed.

(** A fold of the loop body keeps any property that each turn keeps. *)
Lemma fold_step_keeps (I : list pystr * pystr -> Prop) (P : pystr -> Prop)
    cs ov :
  (forall st p, P p -> I st -> I (step cs ov st p)) ->
  forall ps st, Forall P ps -> I st -> I (fold_left (step cs ov) ps st).
Proof.
  intros Hstep ps. induction ps as [|p ps IH]; intros st HP HI; simpl.
  - assumption.
  - inversion HP; subst. apply IH; [assumption|]. now apply Hstep.
Qed.

(** After a turn the buffer holds a character that is not whitespace. *)
Lemma step_inked cs ov st p : trimmed p -> inked (snd (step cs ov st p)).
Proof.
  intros Hp. destruct st as [chunks cur].
  destruct (step_buffer cs ov chunks cur p) as (seed & ->).
  apply (infix_inked p); [now apply trimmed_inked|]. now exists seed, [space].
Qed.

(** X9. [split_text_into_chunks] returns no chunk exactly when the text is
    blank (empty, or whitespace and newlines only), whatever [chunk_size]
    and [overlap] are; a text with any other character gives at least one
    chunk. *)
Theorem no_chunk_iff_blank :
  forall text chunk_size overlap,
    split_text_into_chunks text chunk_size overlap = [] <-> blank text.
Proof.
  intros text cs ov. unfold split_text_into_chunks.
  destruct (negb (truthy text) || (len (strip text) =? 0)%Z) eqn:G.
  - apply segmenter_guard in G. tauto.
  - split.
    + intros H. exfalso.
      assert (Hnb : ~ blank text).
      { intros Hb. apply segmenter_guard in Hb. congruence. }
      destruct (paragraphs text) as [|p0 ps] eqn:E.
      { apply Hnb. now apply paragraphs_nil_iff. }
      pose proof (paragraphs_trimmed text) as Ht. rewrite E in Ht.
      assert (Hink : inked (snd (fold_left (step cs ov) (p0 :: ps) ([], [])))).
      { cbn [fold_left]. inversion Ht as [|? ? Hp0 Hps]; subst.
        apply (fold_step_keeps (fun st => inked (snd st)) trimmed).
        - intros st p Hp _. now apply step_inked.
        - assumption.
        - now apply step_inked. }
      destruct (fold_left (step cs ov) (p0 :: ps) ([], [])) as [chunks cur].
      simpl in Hink. apply strip_inked in Hink.
      destruct Hink as [(x & r & Ex & _) _]. rewrite Ex in H. simpl in H.
      now destruct chunks.
    + intros Hb. apply segmenter_guard in Hb. congruence.
Qed.

(** X10. Every chunk is trimmed: it is not empty and neither starts nor
    ends with whitespace (so it holds no dangling separator), and the same
    holds of every paragraph the text is cut into. *)
Theorem chunks_are_trimmed :
  forall text chunk_size overlap,
    Forall trimmed (split_text_into_chunks text chunk_size overlap)
    /\ Forall trimmed (paragraphs text).
Proof.
  intros text cs ov. split; [|apply paragraphs_trimmed].
  unfold split_text_into_chunks.
  destruct (negb (truthy text) || _); [constructor|].
  assert (H : Forall trimmed
                (fst (fold_left (step cs ov) (paragraphs text) ([], [])))
              /\ (snd (fold_left (step cs ov) (paragraphs text) ([], [])) = []
                  \/ inked (snd (fold_left (step cs ov) (paragraphs text)
                                   ([], []))))).
  { apply (fold_step_keeps
             (fun st => Forall trimmed (fst st) /\ (snd st = [] \/ inked (snd st)))
             trimmed).
    - intros [chunks cur] p Hp [Hc Hb]. split; [|right; now apply step_inked].
      destruct (step_chunks cs ov chunks cur p) as [-> | [Hne ->]];
        [assumption|].
      simpl in *. apply Forall_app. split; [assumption|].
      constructor; [|constructor]. apply strip_inked.
      destruct Hb; [congruence | assumption].
    - apply paragraphs_trimmed.
    - split; [constructor | now left]. }
  destruct (fold_left _ _ _) as [chunks cur]. simpl in H.
  destruct H as [Hc Hb].
  destruct (truthy (strip cur)) eqn:T; [|assumption].
  apply Forall_app. split; [assumption|]. constructor; [|constructor].
  apply strip_inked. destruct Hb as [-> | Hb]; [discriminate | assumption].
Qed.

Lemma step_count cs ov chunks cur p :
  truthy (snd (step cs ov (chunks, cur) p)) = true
  /\ length (fst (step cs ov (chunks, cur) p))
     <= length chunks + (if truthy cur then 1 else 0).
Proof.
  split.
  - destruct (step_buffer cs ov chunks cur p) as (seed & ->).
    destruct seed; [destruct p|]; reflexivity.
  - destruct (step_chunks cs ov chunks cur p) as [-> | [Hne ->]].
    + lia.
    + rewrite length_app. simpl. destruct cur; [congruence | simpl; lia].
Qed.

Lemma fold_step_count cs ov ps : forall chunks cur,
  length (fst (fold_left (step cs ov) ps (chunks, cur)))
  + (if truthy (snd (fold_left (step cs ov) ps (chunks, cur))) then 1 else 0)
  <= length chunks + (if truthy cur then 1 else 0) + length ps.
Proof.
  induction ps as [|p ps IH]; intros chunks cur.
  - simpl. lia.
  - cbn [fold_left length].
    destruct (step_count cs ov chunks cur p) as [Ht Hl].
    destruct (step cs ov (chunks, cur) p) as [chunks' cur'].
    simpl in Ht, Hl. specialize (IH chunks' cur'). rewrite Ht in IH. lia.
Qed.

(** X11. There are never more chunks than paragraphs: a turn of the loop
    emits at most one chunk, the first never does, and the last buffer gives
    at most one more. *)
Theorem chunks_no_more_than_paragraphs :
  forall text chunk_size overlap,
    length (split_text_into_chunks text chunk_size overlap)
    <= length (paragraphs text).
Proof.
  intros text cs ov. unfold split_text_into_chunks.
  destruct (negb (truthy text) || _); [simpl; lia|].
  pose proof (fold_step_count cs ov (paragraphs text) [] []) as H.
  destruct (fold_left _ _ _) as [chunks cur]. simpl in H.
  destruct (truthy (strip cur)) eqn:T.
  - rewrite length_app. simpl.
    destruct cur; [discriminate | simpl in H; lia].
  - destruct (truthy cur); lia.
Qed.

Lemma infix_app_r p s t : infix p s -> infix p (s ++ t).
Proof.
  intros (a & b & ->). exists a, (b ++ t). now rewrite <- !app_assoc.
Qed.

Lemma step_covers cs ov seen st p :
  Forall trimmed seen -> covers seen st ->
  covers (seen ++ [p]) (step cs ov st p).
Proof.
  intros Hseen Hcov q Hq. destruct st as [chunks cur].
  rewrite Forall_forall in Hseen.
  apply in_app_or in Hq. unfold step.
  destruct ((len cur + len p >? cs)%Z && truthy cur); simpl.
  - destruct Hq as [Hq | [<- | []]].
    + left. destruct (Hcov q Hq) as [(c & Hc & Hi) | Hi]; simpl in *.
      * exists c. split; [apply in_or_app; now left | assumption].
      * exists (strip cur). split; [apply in_or_app; right; now left|].
        apply strip_infix; auto.
    + right.
      exists (if (ov >? 0)%Z then slice_last ov cur ++ [space] else []),
             [space].
      reflexivity.
  - destruct Hq as [Hq | [<- | []]].
    + destruct (Hcov q Hq) as [H | Hi]; [now left|]. right.
      now apply infix_app_r.
    + right. now exists cur, [space].
Qed.

Lemma fold_step_covers cs ov ps : forall seen st,
  Forall trimmed seen -> Forall trimmed ps -> covers seen st ->
  covers (seen ++ ps) (fold_left (step cs ov) ps st).
Proof.
  induction ps as [|p ps IH]; intros seen st Hs Hp Hc.
  - now rewrite app_nil_r.
  - cbn [fold_left]. inversion Hp; subst.
    replace (seen ++ p :: ps) with ((seen ++ [p]) ++ ps)
      by now rewrite <- app_assoc.
    apply IH; [|assumption|now apply step_covers].
    apply Forall_app. split; [assumption|].
    constructor; [assumption | constructor].
Qed.

(** X12. No paragraph is lost or cut: every paragraph of the text is found
    whole inside at least one chunk (the overlap may repeat a tail of it in
    the next one). *)
Theorem every_paragraph_in_a_chunk :
  forall text chunk_size overlap p,
    In p (paragraphs text) ->
    exists c,
      In c (split_text_into_chunks text chunk_size overlap) /\ infix p c.
Proof.
  intros text cs ov p Hp. unfold split_text_into_chunks.
  destruct (negb (truthy text) || _) eqn:G.
  - apply segmenter_guard, paragraphs_nil_iff in G. rewrite G in Hp.
    destruct Hp.
  - pose proof (fold_step_covers cs ov (paragraphs text) [] ([], [])
                  (Forall_nil _) (paragraphs_trimmed text)) as H.
    assert (Hc : covers [] (@nil pystr, @nil N)) by (intros q []).
    specialize (H Hc p Hp).
    destruct (fold_left _ _ _) as [chunks cur]. simpl in H.
    assert (Htp : trimmed p).
    { pose proof (paragraphs_trimmed text) as Ht.
      rewrite Forall_forall in Ht. now apply Ht. }
    destruct H as [(c & Hin & Hi) | Hi].
    + exists c. split; [|assumption].
      destruct (truthy (strip cur)); [apply in_or_app; now left | assumption].
    + pose proof (strip_infix p cur Htp Hi) as Hs.
      assert (T : truthy (strip cur) = true).
      { destruct (strip_inked cur
                    (infix_inked p cur (trimmed_inked p Htp) Hi))
          as [(x & r & -> & _) _]. reflexivity. }
      rewrite T. exists (strip cur).
      split; [apply in_or_app; right; now left | assumption].
Qed.

Lemma every_paragraph_in_a_chunk_witness :
  exists c,
    In c (split_text_into_chunks two_paragraphs 5 2)
    /\ infix (str "bbbbb") c.
Proof.
  apply (every_paragraph_in_a_chunk two_paragraphs 5 2 (str "bbbbb")).
  vm_compute. right. now left.
Defined.

Lemma join_space_cons p q rest :
  join_space (p :: q :: rest) = p ++ [space] ++ join_space (q :: rest).
Proof. reflexivity. Qed.

Lemma join_space_trimmed ps :
  ps <> [] -> Forall trimmed ps -> trimmed (join_space ps).
Proof.
  induction ps as [|p [|q rest] IH]; intros Hne Ht; [congruence| |].
  - now inversion Ht.
  - rewrite join_space_cons. inversion Ht as [|? ? Hp Hrest]; subst.
    destruct Hp as [(x & r & -> & Hx) _].
    destruct (IH ltac:(discriminate) Hrest) as [_ (u & y & -> & Hy)].
    split.
    + exists x, (r ++ [space] ++ u ++ [y]). now split.
    + exists ((x :: r) ++ [space] ++ u), y.
      split; [now rewrite <- !app_assoc | assumption].
Qed.

Lemma flat_map_join_space ps :
  ps <> [] ->
  flat_map (fun p => p ++ [space]) ps = join_space ps ++ [space].
Proof.
  induction ps as [|p [|q rest] IH]; intros Hne; [congruence| |].
  - simpl. now rewrite app_nil_r.
  - rewrite join_space_cons. cbn [flat_map] in *.
    rewrite (IH ltac:(discriminate)). now rewrite <- !app_assoc.
Qed.

Lemma len_app a b : len (a ++ b) = (len a + len b)%Z.
Proof. unfold len. rewrite length_app. lia. Qed.

Lemma step_fits cs ov cur p :
  (len cur + len p <= cs)%Z ->
  step cs ov ([], cur) p = ([], cur ++ p ++ [space]).
Proof.
  intros H. unfold step.
  assert (C : (len cur + len p >? cs)%Z = false).
  { rewrite Z.gtb_ltb. apply Z.ltb_ge. lia. }
  now rewrite C.
Qed.

Lemma fold_step_fits cs ov ps : forall cur,
  ps <> [] -> (len cur + len (join_space ps) <= cs)%Z ->
  fold_left (step cs ov) ps ([], cur)
  = ([], cur ++ flat_map (fun p => p ++ [space]) ps).
Proof.
  induction ps as [|p [|q rest] IH]; intros cur Hne Hfit; [congruence| |].
  - cbn [fold_left flat_map join_space] in *.
    rewrite step_fits by assumption. now rewrite app_nil_r.
  - rewrite join_space_cons in Hfit. rewrite !len_app in Hfit.
    change (fold_left (step cs ov) (p :: q :: rest) ([], cur))
      with (fold_left (step cs ov) (q :: rest) (step cs ov ([], cur) p)).
    rewrite step_fits by (pose proof (Zle_0_nat (length [space]));
                          unfold len in *; lia).
    rewrite IH; [|discriminate|].
    + cbn [flat_map]. now rewrite <- !app_assoc.
    + rewrite !len_app. lia.
Qed.

(** X13. A text whose paragraphs, joined by single spaces, fit in
    [chunk_size] gives exactly one chunk: that joined string.  Blank lines,
    indentation and trailing spaces of the lines are gone from it. *)
Theorem fitting_text_is_one_chunk :
  forall text chunk_size overlap,
    paragraphs text <> [] ->
    (len (join_space (paragraphs text)) <= chunk_size)%Z ->
    split_text_into_chunks text chunk_size overlap
    = [join_space (paragraphs text)].
Proof.
  intros text cs ov Hne Hfit. unfold split_text_into_chunks.
  destruct (negb (truthy text) || _) eqn:G.
  - apply segmenter_guard, paragraphs_nil_iff in G. congruence.
  - pose proof (fold_step_fits cs ov (paragraphs text) [] Hne Hfit) as F.
    change (fold_left (step cs ov) (paragraphs text) ([], [])
            = ([], flat_map (fun p => p ++ [space]) (paragraphs text))) in F.
    rewrite F. rewrite (flat_map_join_space _ Hne).
    pose proof (join_space_trimmed _ Hne (paragraphs_trimmed text)) as Ht.
    rewrite (strip_trimmed _ Ht).
    destruct Ht as [(x & r & -> & _) _]. reflexivity.
Qed.

Lemma fitting_text_is_one_chunk_witness :
  split_text_into_chunks short_text 3000 300 = [str "Art. 1 Art. 2"].
Proof.
  rewrite (fitting_text_is_one_chunk short_text 3000 300).
  - vm_compute. reflexivity.
  - vm_compute. discriminate.
  - vm_compute. discriminate.
Defined.

Lemma trimmed_app a m b : trimmed a -> trimmed b -> trimmed (a ++ m ++ b).
Proof.
  intros [(x & r & -> & Hx) _] [_ (q & y & -> & Hy)]. split.
  - exists x, (r ++ m ++ q ++ [y]). now split.
  - exists ((x :: r) ++ m ++ q), y.
    split; [now rewrite <- !app_assoc | assumption].
Qed.

Lemma with_space_app a b : with_space (a ++ b) = with_space a ++ with_space b.
Proof. apply flat_map_app. Qed.

Lemma step_partitions cs ov seen st p :
  (ov <= 0)%Z -> trimmed p -> partitions seen st ->
  partitions (seen ++ [p]) (step cs ov st p).
Proof.
  intros Hov Hp [Heq Hcur]. destruct st as [chunks cur]. simpl in *.
  assert (O : (ov >? 0)%Z = false).
  { rewrite Z.gtb_ltb. apply Z.ltb_ge. lia. }
  unfold partitions, step. rewrite with_space_app, <- Heq, O.
  destruct ((len cur + len p >? cs)%Z && truthy cur) eqn:C; simpl.
  - apply andb_prop in C. destruct C as [_ C].
    destruct Hcur as [-> | (x & Hx & ->)]; [discriminate|].
    rewrite (strip_trimmed x Hx), with_space_app. simpl.
    split; [now rewrite <- !app_assoc, !app_nil_r|].
    right. now exists p.
  - split; [now rewrite <- !app_assoc, !app_nil_r|]. right.
    destruct Hcur as [-> | (x & Hx & ->)].
    + now exists p.
    + exists (x ++ [space] ++ p).
      split; [now apply trimmed_app | now rewrite <- !app_assoc].
Qed.

Lemma fold_step_partitions cs ov ps : forall seen st,
  (ov <= 0)%Z -> Forall trimmed ps -> partitions seen st ->
  partitions (seen ++ ps) (fold_left (step cs ov) ps st).
Proof.
  induction ps as [|p ps IH]; intros seen st Hov Hp Hi.
  - now rewrite app_nil_r.
  - cbn [fold_left]. inversion Hp; subst.
    replace (seen ++ p :: ps) with ((seen ++ [p]) ++ ps)
      by now rewrite <- app_assoc.
    apply IH; [assumption | assumption | now apply step_partitions].
Qed.

Lemma with_space_join ps : with_space ps = [] \/
  (ps <> [] /\ with_space ps = join_space ps ++ [space]).
Proof.
  destruct ps as [|p ps]; [now left|]. right.
  split; [discriminate|]. now apply flat_map_join_space.
Qed.

Lemma with_space_inj a b :
  with_space a = with_space b -> join_space a = join_space b.
Proof.
  intros H.
  destruct (with_space_join a) as [Ha | [Hna Ha]],
           (with_space_join b) as [Hb | [Hnb Hb]].
  - destruct a as [|x a]; [|destruct x; discriminate].
    destruct b as [|y b]; [|destruct y; discriminate]. reflexivity.
  - rewrite Ha, Hb in H. now destruct (join_space b).
  - rewrite Ha, Hb in H. now destruct (join_space a).
  - rewrite Ha, Hb in H. now apply app_inv_tail in H.
Qed.

(** X22. Without overlap ([overlap <= 0]) the chunks are a partition of the
    text: joined by single spaces they give back the paragraphs joined by
    single spaces, in order, with nothing lost and nothing repeated. *)
Theorem chunks_without_overlap_partition_text :
  forall text chunk_size overlap,
    (overlap <= 0)%Z ->
    join_space (split_text_into_chunks text chunk_size overlap)
    = join_space (paragraphs text).
Proof.
  intros text cs ov Hov. apply with_space_inj.
  unfold split_text_into_chunks.
  destruct (negb (truthy text) || _) eqn:G.
  - apply segmenter_guard, paragraphs_nil_iff in G. now rewrite G.
  - assert (H0 : partitions [] (@nil pystr, @nil N)).
    { split; [reflexivity | now left]. }
    pose proof (fold_step_partitions cs ov (paragraphs text) [] ([], []) Hov
                  (paragraphs_trimmed text) H0) as [Heq Hcur].
    destruct (fold_left _ _ _) as [chunks cur]. simpl in *.
    destruct Hcur as [-> | (x & Hx & ->)].
    + simpl. now rewrite app_nil_r in Heq.
    + rewrite (strip_trimmed x Hx).
      destruct Hx as [(c & r & -> & _) _]. simpl truthy. cbv iota.
      rewrite with_space_app. simpl. now rewrite app_nil_r.
Qed.

Lemma chunks_without_overlap_partition_text_witness :
  split_text_into_chunks two_paragraphs 5 0 = [str "aaaaa"; str "bbbbb"]
  /\ join_space (split_text_into_chunks two_paragraphs 5 0)
     = str "aaaaa bbbbb".
Proof.
  split; [vm_compute; reflexivity|].
  rewrite (chunks_without_overlap_partition_text two_paragraphs 5 0);
    [vm_compute; reflexivity | lia].
Defined.

(** ** Embedding provider *)

Lemma slice_to_30000 (t : pystr) :
  (if (len t >? 30000)%Z then slice_to 30000 t else t)
  = firstn (Z.to_nat 30000) t.
Proof.
  destruct (len t >? 30000)%Z eqn:E.
  - reflexivity.
  - rewrite Z.gtb_ltb in E. apply Z.ltb_ge in E. unfold len in E.
    symmetry. apply firstn_all2. lia.
Qed.

Lemma generate_embedding_calls env t st :
  api_calls (snd (generate_embedding env t st))
  = api_calls st + (if openai_client env then 1 else 0)
  /\ CACHE (snd (generate_embedding env t st)) = CACHE st
  /\ DB (snd (generate_embedding env t st)) = DB st.
Proof.
  unfold generate_embedding. cbv zeta.
  destruct (openai_client env); cbn [negb].
  - destruct (embeddings_create env _ _); cbn [snd api_calls CACHE DB bump];
      repeat split; lia.
  - cbn [snd]. repeat split; lia.
Qed.

(** X14. Only the first 30000 characters of a text reach the embeddings
    API: [generate_embedding] gives the same outcome for a text and for its
    first 30000 characters, so two texts that agree on them are embedded
    alike by the same request.  It sends exactly one request when a client
    is configured and none otherwise, and never touches the cache or the
    table. *)
Theorem generate_embedding_truncates :
  forall env t st,
    generate_embedding env t st
    = generate_embedding env (firstn (Z.to_nat 30000) t) st
    /\ api_calls (snd (generate_embedding env t st))
       = api_calls st + (if openai_client env then 1 else 0)
    /\ CACHE (snd (generate_embedding env t st)) = CACHE st
    /\ DB (snd (generate_embedding env t st)) = DB st.
Proof.
  intros env t st. split; [|apply generate_embedding_calls].
  unfold generate_embedding. cbv zeta.
  now rewrite !slice_to_30000, firstn_firstn, Nat.min_id.
Qed.

(** ** The lists a run assembles *)

Lemma embed_chunk_calls env file n i t a :
  api_calls (snd (embed_chunk env file n i t a))
  = api_calls (snd a) + (if openai_client env then 1 else 0)
  /\ CACHE (snd (embed_chunk env file n i t a)) = CACHE (snd a)
  /\ DB (snd (embed_chunk env file n i t a)) = DB (snd a).
Proof.
  destruct a as [acc st]. unfold embed_chunk.
  destruct (generate_embedding_calls env t st) as (Hc & Hk & Hd).
  destruct (generate_embedding env t st) as [[emb|e] st']; simpl in *; auto.
Qed.

Lemma embed_chunks_calls env file n chunks : forall i a,
  api_calls (snd (embed_chunks env file n i chunks a))
  = api_calls (snd a) + (if openai_client env then length chunks else 0)
  /\ CACHE (snd (embed_chunks env file n i chunks a)) = CACHE (snd a)
  /\ DB (snd (embed_chunks env file n i chunks a)) = DB (snd a).
Proof.
  induction chunks as [|t rest IH]; intros i a; simpl.
  - destruct (openai_client env); repeat split; lia.
  - destruct (IH (S i) (embed_chunk env file n i t a)) as (Hc & Hk & Hd).
    destruct (embed_chunk_calls env file n i t a) as (Hc' & Hk' & Hd').
    rewrite Hc, Hk, Hd, Hc', Hk', Hd'.
    destruct (openai_client env); repeat split; lia.
Qed.

Lemma process_file_calls env a file :
  api_calls (snd (process_file env a file))
  = api_calls (snd a) + (if openai_client env then chunks_of env file else 0)
  /\ CACHE (snd (process_file env a file)) = CACHE (snd a)
  /\ DB (snd (process_file env a file)) = DB (snd a).
Proof.
  unfold process_file, chunks_of.
  destruct (file_content env file) as [content|e].
  - apply embed_chunks_calls.
  - destruct a as [acc st]. simpl.
    destruct (openai_client env); repeat split; lia.
Qed.

(** X15. A run sends exactly one request to the embeddings API for each
    chunk of each file whose text could be fetched, failed requests
    included, and none for a file whose download raised; assembling the
    lists touches neither the cache nor the table. *)
Theorem one_request_per_chunk :
  forall env files st,
    api_calls (snd (process_files env files st))
    = api_calls st
      + (if openai_client env then list_sum (map (chunks_of env) files)
         else 0)
    /\ CACHE (snd (process_files env files st)) = CACHE st
    /\ DB (snd (process_files env files st)) = DB st.
Proof.
  intros env files st. unfold process_files.
  change st with (snd (mkAcc [] [], st)) at 2 4 6.
  generalize (mkAcc [] [], st). clear st.
  induction files as [|file rest IH]; intros a; simpl.
  - destruct (openai_client env); repeat split; lia.
  - destruct (IH (process_file env a file)) as (Hc & Hk & Hd).
    destruct (process_file_calls env a file) as (Hc' & Hk' & Hd').
    rewrite Hc, Hk, Hd, Hc', Hk', Hd'.
    destruct (openai_client env); repeat split; lia.
Qed.

Lemma embed_chunk_keeps (P : Chunk -> Prop) env file n i t a :
  (forall emb,
      P (mkChunk (file_id file ++ str "_" ++ str_of_nat i) t (Some emb)
                 (file_name file) (web_link file) i n)) ->
  Forall P (all_files_data (fst a)) ->
  Forall P (all_files_data (fst (embed_chunk env file n i t a))).
Proof.
  intros HP H. destruct a as [acc st]. unfold embed_chunk.
  destruct (generate_embedding env t st) as [[emb|e] st']; simpl;
    [|assumption].
  apply Forall_app. split; [assumption|]. constructor; [apply HP | constructor].
Qed.

Lemma process_files_indexed env files : forall a,
  Forall (fun c => chunk_index c < total_chunks c
                   /\ In (source_document c) (map file_name files))
         (all_files_data (fst a)) ->
  Forall (fun c => chunk_index c < total_chunks c
                   /\ In (source_document c) (map file_name files))
         (all_files_data (fst (fold_left (process_file env) files a))).
Proof.
  assert (G : forall done rest a,
             Forall (fun c => chunk_index c < total_chunks c
                       /\ In (source_document c) (map file_name (done ++ rest)))
                    (all_files_data (fst a)) ->
             Forall (fun c => chunk_index c < total_chunks c
                       /\ In (source_document c) (map file_name (done ++ rest)))
                    (all_files_data
                       (fst (fold_left (process_file env) rest a)))).
  { intros done rest. revert done.
    induction rest as [|file rest IH]; intros done a H; simpl; [assumption|].
    replace (done ++ file :: rest) with ((done ++ [file]) ++ rest) in *
      by now rewrite <- app_assoc.
    apply IH.
    assert (Hin : In (file_name file) (map file_name ((done ++ [file]) ++ rest))).
    { apply in_map. apply in_or_app. left. apply in_or_app. right. now left. }
    unfold process_file. destruct (file_content env file) as [content|e].
    - set (P := fun c => chunk_index c < total_chunks c
                         /\ In (source_document c)
                              (map file_name ((done ++ [file]) ++ rest))) in *.
      remember (split_text_into_chunks content 3000 300) as chunks.
      assert (K : forall cs i b, i + length cs <= length chunks ->
                    Forall P (all_files_data (fst b)) ->
                    Forall P (all_files_data
                      (fst (embed_chunks env file (length chunks) i cs b)))).
      { induction cs as [|t cs IHc]; intros i b Hi Hb; simpl in *;
          [assumption|].
        apply IHc; [lia|]. apply embed_chunk_keeps; [|assumption].
        intros emb. unfold P. simpl. split; [lia | exact Hin]. }
      apply K; [simpl; lia | assumption].
    - destruct a as [acc st]. simpl in *. apply Forall_app.
      split; [assumption|]. constructor; [|constructor].
      simpl. split; [lia | exact Hin]. }
  intros a. exact (G [] files a).
Qed.

(** X16. In the list a run assembles, every chunk has
    [chunk_index < total_chunks] and carries the name of a listed file; so
    the number of documents the run reports exceeds neither the number of
    its chunks nor the number of listed files. *)
Theorem run_counts_are_consistent :
  forall env files st,
    let all := all_files_data (fst (process_files env files st)) in
    Forall (fun c => chunk_index c < total_chunks c
                     /\ In (source_document c) (map file_name files)) all
    /\ unique_docs all <= length all
    /\ unique_docs all <= length files.
Proof.
  intros env files st all.
  assert (H : Forall (fun c => chunk_index c < total_chunks c
                        /\ In (source_document c) (map file_name files)) all).
  { apply process_files_indexed. constructor. }
  split; [exact H|]. unfold unique_docs. split.
  - rewrite <- (length_map source_document all).
    apply NoDup_incl_length; [apply NoDup_nodup|].
    intros x Hx. now apply nodup_In in Hx.
  - rewrite <- (length_map file_name files).
    apply NoDup_incl_length; [apply NoDup_nodup|].
    intros x Hx. apply nodup_In, in_map_iff in Hx.
    destruct Hx as (c & <- & Hc). rewrite Forall_forall in H.
    now apply H.
Qed.

(** ** Chunk ids *)

Lemma str_of_nat_digits n : str_of_nat n = digits_of (Nat.to_uint n).
Proof.
  unfold str_of_nat. induction (Nat.to_uint n) as [|d IH|d IH|d IH|d IH|d IH
                                                   |d IH|d IH|d IH|d IH|d IH];
    [reflexivity | unfold str in *; simpl; now rewrite IH ..].
Qed.

Lemma digits_of_inj d : forall d', digits_of d = digits_of d' -> d = d'.
Proof.
  induction d; intros d' H; destruct d'; simpl in H; try discriminate;
    try reflexivity; injection H as H; f_equal; now apply IHd.
Qed.

Lemma digits_of_no_underscore d : ~ In underscore (digits_of d).
Proof.
  induction d; simpl; intros H; try (destruct H as [H|H]; [discriminate|]);
    auto.
Qed.

Lemma str_of_nat_inj a b : str_of_nat a = str_of_nat b -> a = b.
Proof.
  rewrite !str_of_nat_digits. intros H.
  now apply DecimalNat.Unsigned.to_uint_inj, digits_of_inj.
Qed.

Lemma str_of_nat_no_underscore n : ~ In underscore (str_of_nat n).
Proof. rewrite str_of_nat_digits. apply digits_of_no_underscore. Qed.

(** A string is cut in one way only at its last underscore. *)
Lemma app_underscore_unique (a b x y : pystr) :
  ~ In underscore a -> ~ In underscore b ->
  a ++ underscore :: x = b ++ underscore :: y -> a = b /\ x = y.
Proof.
  revert b. induction a as [|c a IH]; intros [|d b] Ha Hb H; simpl in *.
  - injection H as <-. now split.
  - injection H as <- _. elim Hb. now left.
  - injection H as -> _. elim Ha. now left.
  - injection H as <- H. destruct (IH b) as [-> ->]; auto.
Qed.

Lemma id_cut_unique (f g t u : pystr) :
  ~ In underscore t -> ~ In underscore u ->
  f ++ underscore :: t = g ++ underscore :: u -> f = g /\ t = u.
Proof.
  intros Ht Hu H. apply (f_equal (@rev N)) in H.
  rewrite !rev_app_distr in H. simpl in H. rewrite <- !app_assoc in H.
  simpl in H.
  destruct (app_underscore_unique (rev t) (rev u) (rev f) (rev g)) as [E1 E2].
  - intros Hin. apply Ht. now apply in_rev.
  - intros Hin. apply Hu. now apply in_rev.
  - exact H.
  - split.
    + rewrite <- (rev_involutive f), <- (rev_involutive g). now f_equal.
    + rewrite <- (rev_involutive t), <- (rev_involutive u). now f_equal.
Qed.

Lemma NoDup_snoc (A : Type) (l : list A) x :
  NoDup l -> ~ In x l -> NoDup (l ++ [x]).
Proof.
  intros Hl Hx. apply NoDup_app; [assumption | now repeat constructor|].
  intros a Ha [<- | []]. contradiction.
Qed.

Lemma ids_owned_fresh done fid i all :
  ~ In fid done -> ids_owned done fid i all ->
  ~ In (fid ++ underscore :: str_of_nat i) (map chunk_id all).
Proof.
  intros Hfid Hown Hin. apply in_map_iff in Hin.
  destruct Hin as (c & Hc & Hin).
  destruct (Hown c Hin) as [(f & t & Hf & Ht & E) | (j & Hj & E)];
    rewrite E in Hc.
  - apply id_cut_unique in Hc; [|assumption | apply str_of_nat_no_underscore].
    destruct Hc as [-> _]. contradiction.
  - apply app_inv_head in Hc. injection Hc as Hc.
    apply str_of_nat_inj in Hc. lia.
Qed.

Lemma embed_chunk_ids env file n i t a done :
  ~ In (file_id file) done ->
  NoDup (map chunk_id (all_files_data (fst a))) ->
  ids_owned done (file_id file) i (all_files_data (fst a)) ->
  NoDup (map chunk_id (all_files_data (fst (embed_chunk env file n i t a))))
  /\ ids_owned done (file_id file) (S i)
       (all_files_data (fst (embed_chunk env file n i t a))).
Proof.
  intros Hfid Hnd Hown. destruct a as [acc st]. unfold embed_chunk.
  destruct (generate_embedding env t st) as [[emb|e] st']; simpl in *.
  - split.
    + rewrite map_app. simpl. apply NoDup_snoc; [assumption|].
      now apply (ids_owned_fresh done).
    + intros c Hc. apply in_app_or in Hc. destruct Hc as [Hc | [<- | []]].
      * destruct (Hown c Hc) as [H | (j & Hj & E)]; [now left|].
        right. exists j. split; [lia | assumption].
      * right. exists i. split; [lia | reflexivity].
  - split; [assumption|]. intros c Hc.
    destruct (Hown c Hc) as [H | (j & Hj & E)]; [now left|].
    right. exists j. split; [lia | assumption].
Qed.

Lemma embed_chunks_ids env file n done chunks : forall i a,
  ~ In (file_id file) done ->
  NoDup (map chunk_id (all_files_data (fst a))) ->
  ids_owned done (file_id file) i (all_files_data (fst a)) ->
  NoDup (map chunk_id
           (all_files_data (fst (embed_chunks env file n i chunks a))))
  /\ ids_owned done (file_id file) (i + length chunks)
       (all_files_data (fst (embed_chunks env file n i chunks a))).
Proof.
  induction chunks as [|t rest IH]; intros i a Hfid Hnd Hown; simpl.
  - rewrite Nat.add_0_r. now split.
  - destruct (embed_chunk_ids env file n i t a done Hfid Hnd Hown) as [H1 H2].
    replace (i + S (length rest)) with (S i + length rest) by lia.
    now apply IH.
Qed.

Lemma ids_owned_next done fid i all g :
  ids_owned done fid i all -> ids_owned (fid :: done) g 0 all.
Proof.
  intros Hown c Hc. left.
  destruct (Hown c Hc) as [(f & t & Hf & Ht & E) | (j & Hj & E)].
  - exists f, t. split; [now right | now split].
  - exists fid, (str_of_nat j).
    split; [now left|]. split; [apply str_of_nat_no_underscore | assumption].
Qed.

Lemma process_file_ids env a file done g :
  ~ In (file_id file) done ->
  NoDup (map chunk_id (all_files_data (fst a))) ->
  ids_owned done (file_id file) 0 (all_files_data (fst a)) ->
  NoDup (map chunk_id (all_files_data (fst (process_file env a file))))
  /\ ids_owned (file_id file :: done) g 0
       (all_files_data (fst (process_file env a file))).
Proof.
  intros Hfid Hnd Hown. unfold process_file.
  destruct (file_content env file) as [content|e].
  - destruct (embed_chunks_ids env file
                (length (split_text_into_chunks content 3000 300)) done
                (split_text_into_chunks content 3000 300) 0 a Hfid Hnd Hown)
      as [H1 H2].
    split; [assumption|]. eapply ids_owned_next; eassumption.
  - destruct a as [acc st]. simpl in *. split.
    + rewrite map_app. simpl. apply NoDup_snoc; [assumption|].
      intros Hin. apply in_map_iff in Hin. destruct Hin as (c & Hc & Hin).
      destruct (Hown c Hin) as [(f & t & Hf & Ht & E) | (j & Hj & _)];
        [|lia].
      rewrite E in Hc.
      change (file_id file ++ str "_error")
        with (file_id file ++ underscore :: str "error") in Hc.
      apply id_cut_unique in Hc; [|assumption|].
      * destruct Hc as [-> _]. contradiction.
      * vm_compute. intuition discriminate.
    + intros c Hc. left. apply in_app_or in Hc.
      destruct Hc as [Hc | [<- | []]].
      * destruct (Hown c Hc) as [(f & t & Hf & Ht & E) | (j & Hj & _)];
          [|lia].
        exists f, t. split; [now right | now split].
      * exists (file_id file), (str "error"). split; [now left|].
        split; [vm_compute; intuition discriminate | reflexivity].
Qed.

Lemma fold_process_file_ids env files : forall a done,
  NoDup (map file_id files) ->
  (forall f, In f files -> ~ In (file_id f) done) ->
  NoDup (map chunk_id (all_files_data (fst a))) ->
  (forall g, ids_owned done g 0 (all_files_data (fst a))) ->
  NoDup (map chunk_id
           (all_files_data (fst (fold_left (process_file env) files a)))).
Proof.
  induction files as [|file rest IH]; intros a done Hfiles Hdone Hnd Hown;
    simpl; [assumption|].
  simpl in Hfiles. inversion Hfiles as [|? ? Hnotin Hrest]; subst.
  assert (Hfid : ~ In (file_id file) done) by (apply Hdone; now left).
  apply (IH _ (file_id file :: done)).
  - assumption.
  - intros f Hf [E | Hin].
    + apply Hnotin. rewrite E. now apply in_map.
    + apply (Hdone f); [now right | assumption].
  - now apply (process_file_ids env a file done (file_id file) Hfid Hnd).
  - intros g. now apply (process_file_ids env a file done g Hfid Hnd).
Qed.

Lemma NoDup_map_filter (A B : Type) (f : A -> B) (g : A -> bool) l :
  NoDup (map f l) -> NoDup (map f (filter g l)).
Proof.
  induction l as [|x l IH]; simpl; intros H; [constructor|].
  inversion H as [|? ? Hnotin Hnd]; subst.
  destruct (g x); simpl; [|now apply IH].
  constructor; [|now apply IH].
  intros Hin. apply Hnotin. apply in_map_iff in Hin.
  destruct Hin as (y & E & Hy). apply filter_In in Hy.
  rewrite <- E. apply in_map. tauto.
Qed.

(** X17. When the listing has no repeated file id, the chunks a run
    assembles have pairwise distinct [chunk_id]s (the index or ["error"]
    after the last underscore tells them apart, whatever the file ids look
    like); so the rows that [save_chunks_to_db] builds from them carry
    pairwise distinct primary keys. *)
Theorem run_chunk_ids_are_distinct :
  forall env files st,
    NoDup (map file_id files) ->
    let all := all_files_data (fst (process_files env files st)) in
    NoDup (map chunk_id all)
    /\ (forall created fid,
           primary_key_ok (rows_to_add created fid all) = true).
Proof.
  intros env files st Hfiles all.
  assert (Hnd : NoDup (map chunk_id all)).
  { apply (fold_process_file_ids env files _ []); auto.
    - constructor.
    - intros g c []. }
  split; [exact Hnd|]. intros created fid.
  apply primary_key_ok_NoDup.
  rewrite rows_to_add_filter, map_map. simpl.
  now apply (NoDup_map_filter _ _ chunk_id).
Qed.

Lemma run_chunk_ids_are_distinct_witness :
  map chunk_id
    (all_files_data
       (fst (process_files env_two_files [pdf_file; txt_file]
                           (initial_state []))))
  = [str "f4_error"; str "f3_0"]
  /\ NoDup (map chunk_id
              (all_files_data
                 (fst (process_files env_two_files [pdf_file; txt_file]
                                     (initial_state []))))).
Proof.
  split; [vm_compute; reflexivity|].
  apply (run_chunk_ids_are_distinct env_two_files [pdf_file; txt_file]
           (initial_state [])).
  vm_compute. repeat constructor; simpl; intuition discriminate.
Defined.

(** ** Search *)

Lemma cosine_similarity_ok_length u v s :
  cosine_similarity u v = Ok s -> length u = length v.
Proof.
  unfold cosine_similarity, np_dot.
  destruct (length u =? length v)%nat eqn:E; [|discriminate].
  intros _. now apply Nat.eqb_eq.
Qed.

Lemma score_all_same_dimension q chunks results :
  score_all q chunks = Ok results -> same_dimension q chunks.
Proof.
  revert results. induction chunks as [|c rest IH]; simpl; intros results H.
  - constructor.
  - unfold chunk_similarity in H at 1.
    destruct (embedding c) as [v|] eqn:Ev; [|discriminate].
    destruct (cosine_similarity q v) as [s|e] eqn:Ec; simpl in H;
      [|discriminate].
    destruct (score_all q rest) as [rs|e]; simpl in H; [|discriminate].
    constructor; [|now apply (IH rs)].
    exists v. split; [assumption|]. symmetry.
    now apply (cosine_similarity_ok_length q v s).
Qed.

(** X18. Ranking succeeds exactly when every candidate holds an embedding
    of the length of the query vector; a candidate without embedding, or
    with one of another length, makes it raise instead of being skipped or
    scored zero. *)
Theorem rank_succeeds_iff_same_dimension :
  forall q chunks top_k,
    (exists out, rank q chunks top_k = Ok out) <-> same_dimension q chunks.
Proof.
  intros q chunks top_k. unfold rank. split.
  - intros (out & H).
    destruct (score_all q chunks) as [results|e] eqn:E; [|discriminate].
    now apply (score_all_same_dimension q chunks results).
  - intros H. destruct (score_all_total q chunks H) as (results & ->).
    simpl. eauto.
Qed.

(** X19. What [semantic_search] returns is a part of the scored candidates:
    together with the entries it leaves out it is a rearrangement of the
    list of candidates, each taken once, and the similarity it attaches to a
    chunk is the cosine of the query vector and the embedding of that
    chunk.  This holds for every [top_k] and every score, NaN included. *)
Theorem semantic_search_returns_candidates :
  forall env query chunks top_k st out st',
    semantic_search env query chunks top_k st = (Ok out, st') ->
    exists q results rest,
      generate_embedding env query st = (Ok q, st')
      /\ score_all q chunks = Ok results
      /\ map scored_chunk results = chunks
      /\ Permutation results (out ++ rest)
      /\ Forall (fun r => chunk_similarity q (scored_chunk r)
                          = Ok (similarity r)) out.
Proof.
  intros env query chunks top_k st out st' H. unfold semantic_search in H.
  destruct (generate_embedding env query st) as [[q|e] st1] eqn:G;
    [|discriminate].
  injection H as H <-. unfold rank in H.
  destruct (score_all q chunks) as [results|e] eqn:E; simpl in H;
    [|discriminate].
  injection H as <-.
  assert (Hcut : exists n, slice_to top_k (sort_desc similarity results)
                           = firstn n (sort_desc similarity results)).
  { unfold slice_to. destruct (0 <=? top_k)%Z; eauto. }
  destruct Hcut as (n & ->).
  exists q, results, (skipn n (sort_desc similarity results)).
  split; [reflexivity|]. split; [assumption|].
  split; [now apply (score_all_chunks q)|]. split.
  - rewrite firstn_skipn. apply sort_desc_perm.
  - pose proof (score_all_scores q chunks results E) as Hs.
    apply Forall_forall. intros r Hr. rewrite Forall_forall in Hs.
    apply Hs.
    apply (Permutation_in _
             (Permutation_sym (sort_desc_perm _ similarity results))).
    rewrite <- (firstn_skipn n (sort_desc similarity results)).
    apply in_or_app. now left.
Qed.

Lemma semantic_search_returns_candidates_witness :
  exists out rest,
    semantic_search (env_query [1; 1]%float) (str "consulta")
                    [chunk1; chunk_huge; chunk_ones] 2 (initial_state [])
    = (Ok out, bump (initial_state []))
    /\ Permutation [chunk1; chunk_huge; chunk_ones]
                   (map scored_chunk (out ++ rest)).
Proof.
  destruct (semantic_search (env_query [1; 1]%float) (str "consulta")
              [chunk1; chunk_huge; chunk_ones] 2 (initial_state []))
    as [[out|e] st'] eqn:S; [|vm_compute in S; discriminate].
  assert (Hst : st' = bump (initial_state [])).
  { vm_compute in S. now injection S as _ <-. }
  subst st'.
  destruct (semantic_search_returns_candidates _ _ _ _ _ _ _ S)
    as (q & results & rest & _ & _ & Hm & Hp & _).
  exists out, rest. split; [reflexivity|].
  rewrite <- Hm. now apply Permutation_map.
Defined.

Lemma search_corpus_frame env termino all st :
  CACHE (snd (search_corpus env termino all st)) = CACHE st
  /\ DB (snd (search_corpus env termino all st)) = DB st.
Proof.
  unfold search_corpus. destruct (env_truthy termino); [|now split].
  destruct (chunks_with_embeddings all) as [|c0 cands]; [now split|].
  unfold semantic_search.
  destruct (generate_embedding env _ st) as [[q|e] st1] eqn:G;
    destruct (generate_embedding_frame _ _ _ _ _ G) as [Hc Hd].
  - destruct (rank q (c0 :: cands) MAX_CHUNKS_IN_RESPONSE) as [[|r0 out]|e];
      [| |destruct e]; now split.
  - destruct e; now split.
Qed.

Lemma buscar_normativa_cached env termino st fid :
  FOLDER_ID env = Some fid -> truthy fid = true ->
  is_cache_valid (now_valid env) (CACHE st) fid = true ->
  buscar_normativa env termino st
  = search_corpus env termino (get_cached_files (CACHE st)) st.
Proof.
  intros Hf Ht Hv. unfold buscar_normativa, corpus_for_search.
  now rewrite Hf, Ht, Hv.
Qed.

(** X20. With a valid cache [buscar_normativa] only reads: whatever the
    term, the cache and the table are as before.  Without a term it calls
    no API and returns the first ten chunks of the cache in their order,
    error chunks included; with a term but no chunk that has an embedding
    it calls no API either and answers [success = False] with no chunk. *)
Theorem search_on_valid_cache_only_reads :
  forall env termino st fid,
    FOLDER_ID env = Some fid -> truthy fid = true ->
    is_cache_valid (now_valid env) (CACHE st) fid = true ->
    let out := buscar_normativa env termino st in
    let cached := get_cached_files (CACHE st) in
    CACHE (snd out) = CACHE st /\ DB (snd out) = DB st
    /\ (env_truthy termino = false ->
        snd out = st
        /\ exists resp,
             fst out = Ok resp /\ s_success resp = true
             /\ map fst (s_chunks resp) = firstn 10 cached
             /\ Forall (fun p => snd p = None) (s_chunks resp))
    /\ (env_truthy termino = true -> chunks_with_embeddings cached = [] ->
        snd out = st
        /\ exists resp,
             fst out = Ok resp /\ s_success resp = false
             /\ s_total_chunks resp = Some 0 /\ s_chunks resp = []).
Proof.
  intros env termino st fid Hf Ht Hv out cached. subst out cached.
  rewrite (buscar_normativa_cached env termino st fid Hf Ht Hv).
  destruct (search_corpus_frame env termino (get_cached_files (CACHE st)) st)
    as [Hc Hd].
  split; [exact Hc|]. split; [exact Hd|]. unfold search_corpus. split.
  - intros ->. split; [reflexivity|]. eexists. split; [reflexivity|].
    split; [reflexivity|]. simpl s_chunks. split.
    + rewrite map_map. simpl. now rewrite map_id.
    + apply Forall_forall. intros p Hp. apply in_map_iff in Hp.
      now destruct Hp as (c & <- & _).
  - intros -> ->. split; [reflexivity|]. eexists. split; [reflexivity|].
    repeat split.
Qed.

Lemma search_on_valid_cache_only_reads_witness :
  exists resp,
    buscar_normativa env_no_files None warm_state = (Ok resp, warm_state)
    /\ map fst (s_chunks resp) = [null_chunk; sample_chunk].
Proof.
  destruct (search_on_valid_cache_only_reads env_no_files None warm_state
              sample_folder eq_refl eq_refl eq_refl)
    as (_ & _ & H & _).
  destruct (H eq_refl) as (Hst & resp & Hr & _ & Hm & _).
  exists resp. split.
  - rewrite <- Hst at 2. rewrite <- Hr. now destruct (buscar_normativa _ _ _).
  - exact Hm.
Defined.

Lemma rank_length q chunks top_k out :
  (0 <= top_k)%Z -> rank q chunks top_k = Ok out ->
  length out <= Z.to_nat top_k.
Proof.
  intros Hk. unfold rank.
  destruct (score_all q chunks) as [results|e]; simpl; [|discriminate].
  intros H. injection H as <-. rewrite slice_to_firstn by assumption.
  rewrite length_firstn. apply Nat.le_min_l.
Qed.

(** X21. An answer of [buscar_normativa] never carries more than ten
    chunks, and the [total_chunks] it states, when it states one, is the
    number of chunks it carries. *)
Theorem search_answers_at_most_ten :
  forall env termino st resp st',
    buscar_normativa env termino st = (Ok resp, st') ->
    length (s_chunks resp) <= 10
    /\ (s_total_chunks resp = None
        \/ s_total_chunks resp = Some (length (s_chunks resp))).
Proof.
  intros env termino st resp st'. unfold buscar_normativa.
  destruct (FOLDER_ID env) as [fid|]; [|discriminate].
  destruct (negb (truthy fid)); [discriminate|].
  destruct (corpus_for_search env fid st) as [[[all|r0]|e] st1] eqn:C;
    [| |discriminate].
  - unfold search_corpus. destruct (env_truthy termino).
    + destruct (chunks_with_embeddings all) as [|c0 cands].
      * intros H. injection H as <- _. simpl. split; [lia | now right].
      * unfold semantic_search.
        destruct (generate_embedding env _ st1) as [[q|e] st2];
          [|destruct e; discriminate].
        destruct (rank q (c0 :: cands) MAX_CHUNKS_IN_RESPONSE)
          as [out|e] eqn:R; [|destruct e; discriminate].
        apply rank_length in R; [|unfold MAX_CHUNKS_IN_RESPONSE; lia].
        destruct out as [|r1 out]; intros H; injection H as <- _;
          cbn [s_chunks s_total_chunks].
        -- simpl. split; [lia | now right].
        -- split; [|now right]. cbn [map length]. rewrite length_map.
           exact R.
    + intros H. injection H as <- _. cbn [s_chunks s_total_chunks].
      rewrite length_map. split; [|now right].
      rewrite slice_to_firstn by (unfold MAX_CHUNKS_IN_RESPONSE; lia).
      rewrite length_firstn. apply Nat.le_min_l.
  - unfold corpus_for_search, get_drive_service, list_files_in_folder in C.
    destruct (is_cache_valid _ _ _); [discriminate|].
    destruct (drive_build env); [|discriminate].
    destruct (drive_list env fid) as [[|f0 files]|e0]; [| |discriminate].
    + injection C as <- _. intros H. injection H as <- _. simpl.
      split; [lia | now left].
    + destruct (process_files env (f0 :: files) st). discriminate.
Qed.

Lemma search_answers_at_most_ten_witness :
  exists resp st',
    buscar_normativa env_no_files None warm_state = (Ok resp, st')
    /\ length (s_chunks resp) <= 10.
Proof.
  destruct (buscar_normativa env_no_files None warm_state) as [[resp|e] st']
    eqn:B; [|vm_compute in B; discriminate].
  exists resp, st'. split; [reflexivity|].
  now destruct (search_answers_at_most_ten _ _ _ _ _ B).
Defined.

(** X23. What a run assembled is what the search serves: after a warm-up
    run that assembled at least one chunk, and before the TTL runs out, a
    search without term returns the first ten chunks of that run in the
    order of the run, without listing the folder or calling the API. *)
Theorem search_serves_the_run :
  forall env st fid files env2,
    run_starts env st fid files ->
    all_files_data (fst (process_files env files st)) <> [] ->
    FOLDER_ID env2 = Some fid -> (now_valid env2 < expiry env)%Z ->
    let all := all_files_data (fst (process_files env files st)) in
    let st1 := snd (warmup_cache env st) in
    exists resp,
      buscar_normativa env2 None st1 = (Ok resp, st1)
      /\ map fst (s_chunks resp) = firstn 10 all
      /\ s_total_chunks resp = Some (Nat.min 10 (length all)).
Proof.
  intros env st fid files env2 Hrun Hall Hf2 Hnow all st1.
  assert (Hne : files <> []).
  { intros ->. apply Hall. reflexivity. }
  pose proof (warmup_cache_run env st fid files Hrun Hne) as W.
  cbv zeta in W. subst st1. rewrite W. simpl snd. fold all.
  destruct Hrun as (_ & Ht & _).
  rewrite (buscar_normativa_cached env2 None _ fid Hf2 Ht).
  - unfold search_corpus. simpl env_truthy. cbv iota.
    eexists. split; [reflexivity|]. cbn [s_chunks s_total_chunks].
    rewrite map_map, length_map. cbn [fst]. rewrite map_id.
    rewrite slice_to_firstn by (unfold MAX_CHUNKS_IN_RESPONSE; lia).
    change (Z.to_nat MAX_CHUNKS_IN_RESPONSE) with 10.
    split; [reflexivity|]. now rewrite length_firstn.
  - apply is_cache_valid_written. split; assumption.
Qed.

Lemma search_serves_the_run_witness :
  let st1 := snd (warmup_cache env_two_files (initial_state [])) in
  exists resp,
    buscar_normativa env_two_files None st1 = (Ok resp, st1)
    /\ map chunk_id (map fst (s_chunks resp)) = [str "f4_error"; str "f3_0"].
Proof.
  intros st1.
  destruct (search_serves_the_run env_two_files (initial_state [])
              sample_folder [pdf_file; txt_file] env_two_files)
    as (resp & Hb & Hm & _).
  - repeat split.
  - vm_compute. discriminate.
  - reflexivity.
  - vm_compute. reflexivity.
  - exists resp. split; [exact Hb|]. rewrite Hm. vm_compute. reflexivity.
Defined.

(** ** Cosine against the zero vector *)

(** X24. The cosine of any vector and a vector of zeros of the same length
    is exactly [0.0], on either side, whatever the other vector holds (NaN
    and infinities included): the guard on the norms answers before the
    division. *)
Theorem cosine_with_zero_vector :
  forall v z,
    length v = length z -> Forall (fun x => x = 0%float) z ->
    cosine_similarity v z = Ok 0%float
    /\ cosine_similarity z v = Ok 0%float.
Proof.
  intros v z Hlen Hz. pose proof (norm_of_zeros z Hz) as Hn.
  unfold cosine_similarity.
  rewrite (np_dot_same_length v z Hlen),
    (np_dot_same_length z v (eq_sym Hlen)).
  simpl. rewrite Hn. split.
  - now rewrite orb_true_r.
  - reflexivity.
Qed.

Lemma cosine_with_zero_vector_witness :
  cosine_similarity [nan; 1]%float [0; 0]%float = Ok 0%float.
Proof.
  apply (cosine_with_zero_vector [nan; 1]%float [0; 0]%float).
  - reflexivity.
  - repeat constructor.
Defined.
